(** * todo-board: the board model, the reorder engine and the mutation dispatcher

    A shallow embedding of the extension's custom editor
    ([TodoBoardEditor.resolveCustomTextEditor] and the script of its webview)
    and the properties of the board it maintains. *)

From Stdlib Require Import ZArith NArith Lia String Ascii DecimalN.
From stdpp Require Import base tactics option list.

Local Open Scope Z_scope.

(** ** JavaScript strings

    A JavaScript string is a sequence of UTF-16 code units. *)

Definition code_unit := N.
Definition jsstring := list code_unit.
Definition text := list code_unit.

(** An ASCII literal of the source as a sequence of code units. *)
Fixpoint lit (s : string) : jsstring :=
  match s with
  | EmptyString => []
  | String a s' => N_of_ascii a :: lit s'
  end.

(** ** The board (the parsed document and the webview's [state]) *)

Module Card.
Record t := mk { id : jsstring; title : jsstring }.
End Card.

Module Column.
Record t := mk { id : jsstring; title : jsstring; cards : list Card.t }.
End Column.

Record Board := { columns : list Column.t }.

#[global] Instance card_eq_dec : EqDecision Card.t.
Proof. solve_decision. Defined.
#[global] Instance column_eq_dec : EqDecision Column.t.
Proof. solve_decision. Defined.
#[global] Instance board_eq_dec : EqDecision Board.
Proof. solve_decision. Defined.

(** ** Array built-ins used by the source *)

(** [Array.prototype.splice(start, deleteCount, ...items)]: a negative
    [start] counts from the end, a [start] beyond the length is the length,
    and [deleteCount] is clamped to what is left.  The result is the array
    after the call and the array of the removed elements. *)
Definition relative_start (len : nat) (start : Z) : nat :=
  if start <? 0 then Z.to_nat (Z.max (Z.of_nat len + start) 0)
  else Z.to_nat (Z.min start (Z.of_nat len)).

Definition splice {A} (l : list A) (start deleteCount : Z) (items : list A)
  : list A * list A :=
  let s := relative_start (length l) start in
  let d := Z.to_nat (Z.min (Z.max deleteCount 0) (Z.of_nat (length l - s))) in
  (take s l ++ items ++ drop (s + d) l, take d (drop s l)).

(** [cols.find(c => c.id === id)] and [cols.findIndex(...)] at once: the
    first column with that id, with its index.  The index stands for the
    reference to the column object. *)
Definition find_column (id : jsstring) (cols : list Column.t)
  : option (nat * Column.t) :=
  list_find (λ c, Column.id c = id) cols.

Definition find_card (id : jsstring) (cards : list Card.t)
  : option (nat * Card.t) :=
  list_find (λ c, Card.id c = id) cards.

(** The column object at index [i] gets [cs] as the content of its [cards]
    array (an in-place [splice] of that array). *)
Definition set_cards (i : nat) (cs : list Card.t) (cols : list Column.t)
  : list Column.t :=
  alter (λ c, Column.mk (Column.id c) (Column.title c) cs) i cols.

(** ** The webview's [moveCard] *)

(** How a call ends: it returns, or a [TypeError] is thrown (a property is
    read from [undefined]); in both cases with the [state] it leaves. *)
Inductive completion :=
| Returns (state : Board)
| TypeError (state : Board).

(** The value of the local [finalIndex] before the [undefined] test:
    [toIndex] is [None] when the argument is [undefined], and a comparison
    with [undefined] is false. *)
Definition finalIndex (fromId toId : jsstring) (fromIdx : nat)
    (toIndex : option Z) : option Z :=
  match toIndex with
  | None => None
  | Some j =>
    if bool_decide (fromId = toId) && (Z.of_nat fromIdx <? j)
    then (if j >? Z.of_nat fromIdx then Some (j - 1) else Some j)
    else Some j
  end.

(** [card] is the one element that [splice(fromIdx, 1)] removes, the element
    found at [fromIdx] (lemma [splice_found]).  [toCol] is the same object as
    [fromCol] exactly when both were found at the same index, and then its
    [cards] array is the one the card was just removed from. *)
Definition moveCard (state : Board) (fromId toId cardId : jsstring)
    (toIndex : option Z) : completion :=
  let fromCol := find_column fromId (columns state) in
  let toCol := find_column toId (columns state) in
  match fromCol with
  | None => TypeError state
  | Some (fi, fc) =>
    match find_card cardId (Column.cards fc) with
    | None => Returns state
    | Some (fromIdx, card) =>
      let rest := (splice (Column.cards fc) (Z.of_nat fromIdx) 1 []).1 in
      let state1 := {| columns := set_cards fi rest (columns state) |} in
      match toCol with
      | None => TypeError state1
      | Some (ti, tc) =>
        let toCards := if decide (ti = fi) then rest else Column.cards tc in
        let final :=
          default (Z.of_nat (length toCards))
                  (finalIndex fromId toId fromIdx toIndex) in
        Returns
          {| columns :=
               set_cards ti (splice toCards final 0 [card]).1
                         (columns state1) |}
      end
    end
  end.

(** The number of cards on the board. *)
Definition total_cards (b : Board) : nat :=
  sum_list (length ∘ Column.cards <$> columns b).

(** [l] with [x] put in front of position [p]. *)
Definition insert_at {A} (p : nat) (x : A) (l : list A) : list A :=
  take p l ++ x :: drop p l.

(** The position at which [moveCard] inserts into [toCards], the destination
    array as it is after the removal. *)
Definition landing (fromId toId : jsstring) (fromIdx : nat)
    (toIndex : option Z) (toCards : list Card.t) : nat :=
  relative_start (length toCards)
    (default (Z.of_nat (length toCards))
             (finalIndex fromId toId fromIdx toIndex)).

(** The board of the scenarios: column [a] with the cards [c1] and [c2],
    and the empty column [b]. *)
Definition card_c1 : Card.t := Card.mk (lit "c1") (lit "X").
Definition card_c2 : Card.t := Card.mk (lit "c2") (lit "Y").
Definition column_a : Column.t :=
  Column.mk (lit "a") (lit "A") [card_c1; card_c2].
Definition column_b : Column.t := Column.mk (lit "b") (lit "B") [].
Definition scenario_board : Board := {| columns := [column_a; column_b] |}.

(** ** JSON texts

    [JSON.parse] and [JSON.stringify(value, null, 2)] of ECMA-262 (25.5), on
    texts and strings as sequences of code units.  A [json] is the syntax
    tree of a JSON text; a number is kept as its lexeme. *)

#[local] Unset Elimination Schemes.
Inductive json :=
| JNull
| JBool (b : bool)
| JNumber (lexeme : text)
| JString (s : jsstring)
| JArray (elements : list json)
| JObject (members : list (jsstring * json)).
#[local] Set Elimination Schemes.

Local Open Scope N_scope.

(** The code unit of an ASCII character. *)
Definition cu (a : ascii) : code_unit := N_of_ascii a.

Definition LF : code_unit := 10.
Definition quotation_mark : code_unit := 34.
Definition reverse_solidus : code_unit := 92.

Definition is_leading_surrogate (c : code_unit) : bool :=
  (0xD800 <=? c) && (c <=? 0xDBFF).
Definition is_trailing_surrogate (c : code_unit) : bool :=
  (0xDC00 <=? c) && (c <=? 0xDFFF).

(** *** [QuoteJSONString] *)

(** The two-character escapes of the table of [QuoteJSONString]. *)
Definition short_escape (c : code_unit) : option code_unit :=
  if c =? 8 then Some (cu "b")
  else if c =? 9 then Some (cu "t")
  else if c =? 10 then Some (cu "n")
  else if c =? 12 then Some (cu "f")
  else if c =? 13 then Some (cu "r")
  else if c =? 34 then Some quotation_mark
  else if c =? 92 then Some reverse_solidus
  else None.

Definition hex_digit (d : N) : code_unit :=
  if d <? 10 then 48 + d else 87 + d.

(** [UnicodeEscape]: a backslash, [u] and four lowercase hexadecimal digits. *)
Definition UnicodeEscape (c : code_unit) : text :=
  [reverse_solidus; cu "u";
   hex_digit (c / 4096 mod 16); hex_digit (c / 256 mod 16);
   hex_digit (c / 16 mod 16); hex_digit (c mod 16)].

(** The string is read code point by code point: a leading surrogate
    followed by a trailing one is a pair and is copied; a surrogate on its
    own is escaped. *)
Fixpoint quote_units (s : jsstring) : text :=
  match s with
  | [] => []
  | c :: s' =>
    match short_escape c with
    | Some e => reverse_solidus :: e :: quote_units s'
    | None =>
      if c <? 32 then UnicodeEscape c ++ quote_units s'
      else if is_leading_surrogate c then
        match s' with
        | d :: s'' =>
          if is_trailing_surrogate d then c :: d :: quote_units s''
          else UnicodeEscape c ++ quote_units s'
        | [] => UnicodeEscape c
        end
      else if is_trailing_surrogate c then UnicodeEscape c ++ quote_units s'
      else c :: quote_units s'
    end
  end.

Definition QuoteJSONString (s : jsstring) : text :=
  quotation_mark :: quote_units s ++ [quotation_mark].

(** *** [JSON.stringify(value, null, 2)] *)

(** The [gap] of an indentation of 2. *)
Definition gap : text := [32; 32].

Fixpoint join (separator : text) (partial : list text) : text :=
  match partial with
  | [] => []
  | [p] => p
  | p :: rest => p ++ separator ++ join separator rest
  end.

(** [SerializeJSONProperty], with [SerializeJSONArray] and
    [SerializeJSONObject], for a non-empty [gap]; [indent] is the current
    indentation. *)
Fixpoint serialize (indent : text) (v : json) : text :=
  match v with
  | JNull => lit "null"
  | JBool true => lit "true"
  | JBool false => lit "false"
  | JNumber lexeme => lexeme
  | JString s => QuoteJSONString s
  | JArray [] => lit "[]"
  | JArray elements =>
    let stepback := indent in
    let indent := indent ++ gap in
    lit "[" ++ [LF] ++ indent
      ++ join (lit "," ++ [LF] ++ indent) (map (serialize indent) elements)
      ++ [LF] ++ stepback ++ lit "]"
  | JObject [] => lit "{}"
  | JObject members =>
    let stepback := indent in
    let indent := indent ++ gap in
    lit "{" ++ [LF] ++ indent
      ++ join (lit "," ++ [LF] ++ indent)
           (map (λ m, QuoteJSONString m.1 ++ lit ": " ++ serialize indent m.2)
                members)
      ++ [LF] ++ stepback ++ lit "}"
  end.

Definition JSON_stringify (v : json) : text := serialize [] v.

(** *** [JSON.parse] *)

(** JSON white space: tab, line feed, carriage return and space. *)
Definition is_ws (c : code_unit) : bool :=
  (c =? 9) || (c =? 10) || (c =? 13) || (c =? 32).

Fixpoint skip_ws (s : text) : text :=
  match s with
  | c :: r => if is_ws c then skip_ws r else s
  | [] => []
  end.

Definition hex_value (h : code_unit) : option N :=
  if (48 <=? h) && (h <=? 57) then Some (h - 48)
  else if (97 <=? h) && (h <=? 102) then Some (h - 87)
  else if (65 <=? h) && (h <=? 70) then Some (h - 55)
  else None.

(** The character after a backslash, other than [u]. *)
Definition unescape (e : code_unit) : option code_unit :=
  if e =? 34 then Some 34
  else if e =? 92 then Some 92
  else if e =? 47 then Some 47
  else if e =? cu "b" then Some 8
  else if e =? cu "f" then Some 12
  else if e =? cu "n" then Some 10
  else if e =? cu "r" then Some 13
  else if e =? cu "t" then Some 9
  else None.

Definition prepend {A B} (x : A) (r : option (list A * B)) : option (list A * B) :=
  match r with
  | Some (l, b) => Some (x :: l, b)
  | None => None
  end.

(** The characters of a string after its opening quotation mark, up to and
    including the closing one. *)
Fixpoint parse_chars (s : text) : option (jsstring * text) :=
  match s with
  | [] => None
  | c :: r =>
    if c =? quotation_mark then Some ([], r)
    else if c =? reverse_solidus then
      match r with
      | [] => None
      | e :: r' =>
        if e =? cu "u" then
          match r' with
          | h1 :: h2 :: h3 :: h4 :: r'' =>
            match hex_value h1, hex_value h2, hex_value h3, hex_value h4 with
            | Some d1, Some d2, Some d3, Some d4 =>
              prepend (d1 * 4096 + d2 * 256 + d3 * 16 + d4) (parse_chars r'')
            | _, _, _, _ => None
            end
          | _ => None
          end
        else
          match unescape e with
          | Some x => prepend x (parse_chars r')
          | None => None
          end
      end
    else if c <? 32 then None
    else prepend c (parse_chars r)
  end.

Definition is_digit (c : code_unit) : bool := (48 <=? c) && (c <=? 57).

Fixpoint span_digits (s : text) : text * text :=
  match s with
  | c :: r =>
    if is_digit c then let '(ds, r') := span_digits r in (c :: ds, r')
    else ([], s)
  | [] => ([], [])
  end.

(** A number: an optional minus, an integer without a leading zero, an
    optional fraction and an optional exponent.  The lexeme and the rest of
    the text. *)
Definition lex_int (s : text) : option (text * text) :=
  match s with
  | c :: r =>
    if c =? 48 then Some ([c], r)
    else if is_digit c then
      let '(ds, r') := span_digits r in Some (c :: ds, r')
    else None
  | [] => None
  end.

Definition lex_frac (s : text) : option (text * text) :=
  match s with
  | c :: r =>
    if c =? cu "." then
      match span_digits r with
      | ([], _) => None
      | (ds, r') => Some (c :: ds, r')
      end
    else Some ([], s)
  | [] => Some ([], [])
  end.

Definition lex_exp (s : text) : option (text * text) :=
  match s with
  | c :: r =>
    if (c =? cu "e") || (c =? cu "E") then
      let '(sign, r1) :=
        match r with
        | g :: r1 =>
          if (g =? cu "+") || (g =? cu "-") then ([g], r1) else ([], r)
        | [] => ([], [])
        end in
      match span_digits r1 with
      | ([], _) => None
      | (ds, r') => Some (c :: sign ++ ds, r')
      end
    else Some ([], s)
  | [] => Some ([], [])
  end.

Definition lex_number (s : text) : option (text * text) :=
  let '(minus, s1) :=
    match s with
    | c :: r => if c =? cu "-" then ([c], r) else ([], s)
    | [] => ([], [])
    end in
  '(int, s2) ← lex_int s1;
  '(frac, s3) ← lex_frac s2;
  '(exp, s4) ← lex_exp s3;
  Some (minus ++ int ++ frac ++ exp, s4).

(** [s] without the prefix [p], when it starts with it. *)
Fixpoint strip_prefix (p s : text) : option text :=
  match p, s with
  | [], _ => Some s
  | a :: p', b :: s' => if a =? b then strip_prefix p' s' else None
  | _ :: _, [] => None
  end.

(** A value after optional white space, and the text behind it.  Every
    nested call takes one unit of [fuel]. *)
Fixpoint parse_value (fuel : nat) (s : text) : option (json * text) :=
  match fuel with
  | O => None
  | S fuel =>
    match skip_ws s with
    | [] => None
    | c :: r =>
      if c =? quotation_mark then
        '(str, r') ← parse_chars r; Some (JString str, r')
      else if c =? cu "[" then
        match skip_ws r with
        | d :: r' =>
          if d =? cu "]" then Some (JArray [], r')
          else '(els, r'') ← parse_elements fuel r; Some (JArray els, r'')
        | [] => None
        end
      else if c =? cu "{" then
        match skip_ws r with
        | d :: r' =>
          if d =? cu "}" then Some (JObject [], r')
          else '(ms, r'') ← parse_members fuel r; Some (JObject ms, r'')
        | [] => None
        end
      else if c =? cu "t" then
        r' ← strip_prefix (lit "rue") r; Some (JBool true, r')
      else if c =? cu "f" then
        r' ← strip_prefix (lit "alse") r; Some (JBool false, r')
      else if c =? cu "n" then
        r' ← strip_prefix (lit "ull") r; Some (JNull, r')
      else
        '(lexeme, r') ← lex_number (c :: r); Some (JNumber lexeme, r')
    end
  end
with parse_elements (fuel : nat) (s : text) : option (list json * text) :=
  match fuel with
  | O => None
  | S fuel =>
    '(v, r) ← parse_value fuel s;
    match skip_ws r with
    | d :: r' =>
      if d =? cu "," then prepend v (parse_elements fuel r')
      else if d =? cu "]" then Some ([v], r')
      else None
    | [] => None
    end
  end
with parse_members (fuel : nat) (s : text)
  : option (list (jsstring * json) * text) :=
  match fuel with
  | O => None
  | S fuel =>
    match skip_ws s with
    | q :: r0 =>
      if q =? quotation_mark then
        '(key, r1) ← parse_chars r0;
        match skip_ws r1 with
        | colon :: r2 =>
          if colon =? cu ":" then
            '(v, r) ← parse_value fuel r2;
            match skip_ws r with
            | d :: r' =>
              if d =? cu "," then prepend (key, v) (parse_members fuel r')
              else if d =? cu "}" then Some ([(key, v)], r')
              else None
            | [] => None
            end
          else None
        | [] => None
        end
      else None
    | [] => None
    end
  end.

(** The whole text is one value between optional white space; [None] is the
    [SyntaxError]. *)
Definition JSON_parse (t : text) : option json :=
  '(v, rest) ← parse_value (2 * length t + 2) t;
  match skip_ws rest with
  | [] => Some v
  | _ :: _ => None
  end.

Local Close Scope N_scope.

(** *** Boards as JSON values

    A board document has exactly the members of the document format, in the
    order in which the extension writes them. *)

Definition json_of_card (c : Card.t) : json :=
  JObject [(lit "id", JString (Card.id c));
           (lit "title", JString (Card.title c))].

Definition json_of_column (c : Column.t) : json :=
  JObject [(lit "id", JString (Column.id c));
           (lit "title", JString (Column.title c));
           (lit "cards", JArray (json_of_card <$> Column.cards c))].

Definition json_of_board (b : Board) : json :=
  JObject [(lit "columns", JArray (json_of_column <$> columns b))].

Definition card_of_json (j : json) : option Card.t :=
  match j with
  | JObject [(k1, JString i); (k2, JString t)] =>
    if decide (k1 = lit "id" ∧ k2 = lit "title") then Some (Card.mk i t)
    else None
  | _ => None
  end.

Definition column_of_json (j : json) : option Column.t :=
  match j with
  | JObject [(k1, JString i); (k2, JString t); (k3, JArray cs)] =>
    if decide (k1 = lit "id" ∧ k2 = lit "title" ∧ k3 = lit "cards")
    then Column.mk i t <$> mapM card_of_json cs
    else None
  | _ => None
  end.

Definition board_of_json (j : json) : option Board :=
  match j with
  | JObject [(k, JArray cols)] =>
    if decide (k = lit "columns")
    then Build_Board <$> mapM column_of_json cols
    else None
  | _ => None
  end.

(** The store's serializer and its loader on boards. *)
Definition serialize_board (b : Board) : text :=
  JSON_stringify (json_of_board b).

Definition load (t : text) : option Board :=
  JSON_parse t ≫= board_of_json.

(** ** The host: document, prompt, clock and webview

    The handler of the custom editor reads the text of the document, awaits
    the input box, reads the clock, posts [{ type: 'data', data }] to the
    webview, replaces a range of the document and saves it.  A [Proc A] is a
    computation with these effects and a result in [A].  The edit and the
    save go through.  [NotABoard] stands for what the handler does on a
    document that is JSON but not a board, which is left out. *)

Inductive Proc (A : Type) : Type :=
| Ret (a : A)
| GetText (k : text → Proc A)
| ShowInputBox (prompt : jsstring) (k : option jsstring → Proc A)
| DateNow (k : N → Proc A)
| PostMessage (data : json) (k : Proc A)
| ApplyEdit (upto : nat) (newText : text) (k : Proc A)
| Save (k : Proc A)
| NotABoard.
Arguments Ret {A} a.
Arguments GetText {A} k.
Arguments ShowInputBox {A} prompt k.
Arguments DateNow {A} k.
Arguments PostMessage {A} data k.
Arguments ApplyEdit {A} upto newText k.
Arguments Save {A} k.
Arguments NotABoard {A}.

Fixpoint bind {A B} (p : Proc A) (f : A → Proc B) : Proc B :=
  match p with
  | Ret a => f a
  | GetText k => GetText (λ t, bind (k t) f)
  | ShowInputBox prompt k => ShowInputBox prompt (λ r, bind (k r) f)
  | DateNow k => DateNow (λ n, bind (k n) f)
  | PostMessage data k => PostMessage data (bind k f)
  | ApplyEdit upto newText k => ApplyEdit upto newText (bind k f)
  | Save k => Save (bind k f)
  | NotABoard => NotABoard
  end.

#[global] Instance Proc_ret : MRet Proc := @Ret.
#[global] Instance Proc_bind : MBind Proc := λ A B f p, bind p f.

Definition getText : Proc text := GetText Ret.
Definition showInputBox (prompt : jsstring) : Proc (option jsstring) :=
  ShowInputBox prompt Ret.
Definition dateNow : Proc N := DateNow Ret.
Definition postMessage (data : json) : Proc unit := PostMessage data (Ret tt).
Definition applyEdit (upto : nat) (newText : text) : Proc unit :=
  ApplyEdit upto newText (Ret tt).
Definition save : Proc unit := Save (Ret tt).

(** What the host has seen happen, latest first. *)
Inductive Event :=
| Prompted (prompt : jsstring)
| Posted (data : json)
| Edited (newText : text)
| Saved.

Record Host := { document : text; log : list Event }.

(** [edit.replace(uri, new Range(positionAt(0), positionAt(upto)), newText)]
    applied: the first [upto] code units of the document, or all of it when
    it is shorter, give way to [newText]. *)
Definition replace_range (upto : nat) (newText doc : text) : text :=
  newText ++ drop upto doc.

(** A handler run with nothing in between: the input box answers [answer]
    and the clock shows [now].  The result is [None] on [NotABoard]. *)
Fixpoint run {A} (p : Proc A) (answer : option jsstring) (now : N) (h : Host)
  : Host * option A :=
  match p with
  | Ret a => (h, Some a)
  | GetText k => run (k (document h)) answer now h
  | ShowInputBox prompt k =>
    run (k answer) answer now
        {| document := document h; log := Prompted prompt :: log h |}
  | DateNow k => run (k now) answer now h
  | PostMessage data k =>
    run k answer now {| document := document h; log := Posted data :: log h |}
  | ApplyEdit upto newText k =>
    run k answer now
        {| document := replace_range upto newText (document h);
           log := Edited newText :: log h |}
  | Save k =>
    run k answer now {| document := document h; log := Saved :: log h |}
  | NotABoard => (h, None)
  end.

(** A handler run up to its first [await] of the input box: from there on
    the event loop is free to run other handlers, and [resume] runs when the
    box is answered. *)
Inductive Suspension (A : Type) :=
| Finished (h : Host) (a : option A)
| Awaiting (h : Host) (resume : option jsstring → Proc A).
Arguments Finished {A} h a.
Arguments Awaiting {A} h resume.

Fixpoint start {A} (p : Proc A) (now : N) (h : Host) : Suspension A :=
  match p with
  | Ret a => Finished h (Some a)
  | GetText k => start (k (document h)) now h
  | ShowInputBox prompt k =>
    Awaiting {| document := document h; log := Prompted prompt :: log h |} k
  | DateNow k => start (k now) now h
  | PostMessage data k =>
    start k now {| document := document h; log := Posted data :: log h |}
  | ApplyEdit upto newText k =>
    start k now
        {| document := replace_range upto newText (document h);
           log := Edited newText :: log h |}
  | Save k =>
    start k now {| document := document h; log := Saved :: log h |}
  | NotABoard => Finished h None
  end.

(** ** The messages of the webview to the editor *)

Inductive Message :=
| Update (data : Board)
| DeleteColumn (columnId : jsstring)
| RenameColumn (columnId newTitle : jsstring)
| AddColumn
| AddCard (columnId : jsstring)
| DeleteCard (columnId cardId : jsstring)
| MoveColumn (fromId toId : jsstring)
| OtherMessage.

(** [Number::toString] of a time value: its decimal digits. *)
Fixpoint digits (d : Decimal.uint) : text :=
  match d with
  | Decimal.Nil => []
  | Decimal.D0 d => 48%N :: digits d
  | Decimal.D1 d => 49%N :: digits d
  | Decimal.D2 d => 50%N :: digits d
  | Decimal.D3 d => 51%N :: digits d
  | Decimal.D4 d => 52%N :: digits d
  | Decimal.D5 d => 53%N :: digits d
  | Decimal.D6 d => 54%N :: digits d
  | Decimal.D7 d => 55%N :: digits d
  | Decimal.D8 d => 56%N :: digits d
  | Decimal.D9 d => 57%N :: digits d
  end.

Definition Number_toString (n : N) : jsstring := digits (N.to_uint n).

(** [s.replace(/[^a-z0-9]/g, '-')]: without the [u] flag the pattern is
    matched against single code units. *)
Definition is_lower_alnum (c : code_unit) : bool :=
  ((97 <=? c) && (c <=? 122) || (48 <=? c) && (c <=? 57))%N.

Definition replace_non_alnum (s : jsstring) : jsstring :=
  (λ c, if is_lower_alnum c then c else cu "-") <$> s.

(** The column object at index [i] gets the title [t]. *)
Definition set_title (i : nat) (t : jsstring) (cols : list Column.t)
  : list Column.t :=
  alter (λ c, Column.mk (Column.id c) t (Column.cards c)) i cols.

(** ** The custom editor *)

Section Editor.
(** [String.prototype.toLowerCase], the case mapping of Unicode. *)
Variable toLowerCase : jsstring → jsstring.

(** The normalized slug of a title. *)
Definition slug (title : jsstring) : jsstring :=
  replace_non_alnum (toLowerCase title).

(** [sendData]: the document is posted to the webview, unless it does not
    parse. *)
Definition sendData : Proc unit :=
  t ← getText;
  match JSON_parse t with
  | Some data => postMessage data
  | None => mret tt
  end.

(** The branch of a message: the [data] it leaves and the [dirty] flag. *)
Definition branch (data : Board) (msg : Message) : Proc (Board * bool) :=
  match msg with
  | Update d => mret (d, true)
  | DeleteColumn columnId =>
    match find_column columnId (columns data) with
    | Some (index, _) =>
      mret ({| columns := (splice (columns data) (Z.of_nat index) 1 []).1 |},
            true)
    | None => mret (data, false)
    end
  | RenameColumn columnId newTitle =>
    match find_column columnId (columns data) with
    | Some (i, _) =>
      mret ({| columns := set_title i newTitle (columns data) |}, true)
    | None => mret (data, false)
    end
  | AddColumn =>
    title ← showInputBox (lit "New Column Title");
    match title with
    | Some ((_ :: _) as title) =>
      now ← dateNow;
      let id := slug title ++ lit "-" ++ Number_toString now in
      let data :=
        {| columns := columns data ++ [Column.mk id title []] |} in
      _ ← sendData;
      mret (data, true)
    | _ => mret (data, false)
    end
  | AddCard columnId =>
    title ← showInputBox (lit "New Card Title");
    match title with
    | Some ((_ :: _) as title) =>
      match find_column columnId (columns data) with
      | Some (i, col) =>
        now ← dateNow;
        let cardId := lit "card-" ++ Number_toString now in
        let data :=
          {| columns :=
               set_cards i (Column.cards col ++ [Card.mk cardId title])
                         (columns data) |} in
        _ ← sendData;
        mret (data, true)
      | None => mret (data, false)
      end
    | _ => mret (data, false)
    end
  | DeleteCard columnId cardId =>
    match find_column columnId (columns data) with
    | Some (i, col) =>
      match find_card cardId (Column.cards col) with
      | Some (idx, _) =>
        mret ({| columns :=
                   set_cards i
                     (splice (Column.cards col) (Z.of_nat idx) 1 []).1
                     (columns data) |}, true)
      | None => mret (data, false)
      end
    | None => mret (data, false)
    end
  | MoveColumn fromId toId =>
    match find_column fromId (columns data),
          find_column toId (columns data) with
    | Some (fromIndex, col), Some (toIndex, _) =>
      if decide (fromIndex ≠ toIndex) then
        let cols := (splice (columns data) (Z.of_nat fromIndex) 1 []).1 in
        mret ({| columns := (splice cols (Z.of_nat toIndex) 0 [col]).1 |},
              true)
      else mret (data, false)
    | _, _ => mret (data, false)
    end
  | OtherMessage => mret (data, false)
  end.

(** The listener of [panel.webview.onDidReceiveMessage]. *)
Definition onDidReceiveMessage (msg : Message) : Proc unit :=
  currentText ← getText;
  match JSON_parse currentText with
  | None => mret tt
  | Some parsed =>
    match board_of_json parsed with
    | None => NotABoard
    | Some data =>
      '(data, dirty) ← branch data msg;
      if dirty : bool then
        _ ← applyEdit (length currentText) (serialize_board data);
        save
      else mret tt
    end
  end.
End Editor.

(** ** The webview *)

(** ECMAScript white space and line terminators, which [trim] strips. *)
Definition is_js_space (c : code_unit) : bool :=
  ((9 <=? c) && (c <=? 13) || (c =? 0x20) || (c =? 0xA0) || (c =? 0x1680)
   || (0x2000 <=? c) && (c <=? 0x200A) || (c =? 0x2028) || (c =? 0x2029)
   || (c =? 0x202F) || (c =? 0x205F) || (c =? 0x3000) || (c =? 0xFEFF))%N.

Fixpoint trim_start (s : jsstring) : jsstring :=
  match s with
  | c :: r => if is_js_space c then trim_start r else s
  | [] => []
  end.

Definition trim (s : jsstring) : jsstring :=
  reverse (trim_start (reverse (trim_start s))).

(** [saveRename] of the title element of [col]: the message posted, if any,
    and the [textContent] the element is left with. *)
Definition saveRename (col : Column.t) (textContent : jsstring)
  : option Message * jsstring :=
  let newTitle := trim textContent in
  if bool_decide (newTitle ≠ []) && bool_decide (newTitle ≠ Column.title col)
  then (Some (RenameColumn (Column.id col) newTitle), textContent)
  else (None, Column.title col).

(** The drop of the dragged card on a column: [moveCard], and then the
    [update] message with the state, unless [moveCard] threw. *)
Definition ondrop_card (state : Board) (fromColumn colId draggedId : jsstring)
    (index : Z) : completion * option Message :=
  match moveCard state fromColumn colId draggedId (Some index) with
  | Returns state' => (Returns state', Some (Update state'))
  | TypeError state' => (TypeError state', None)
  end.

(** ASCII titles: on them [toLowerCase] maps [A]-[Z] to [a]-[z] and leaves
    the rest. *)
Definition ascii_toLowerCase (s : jsstring) : jsstring :=
  (λ c, if (65 <=? c) && (c <=? 90) then c + 32 else c)%N <$> s.

(** A message that refers to a column or a card that the board [data] does
    not have. *)
Definition unresolved (data : Board) (msg : Message) : Prop :=
  match msg with
  | DeleteColumn columnId | RenameColumn columnId _ | AddCard columnId =>
    find_column columnId (columns data) = None
  | DeleteCard columnId cardId =>
    match find_column columnId (columns data) with
    | Some (_, col) => find_card cardId (Column.cards col) = None
    | None => True
    end
  | MoveColumn fromId toId =>
    find_column fromId (columns data) = None ∨
    find_column toId (columns data) = None
  | Update _ | AddColumn | OtherMessage => False
  end.

(** A prompt of the input box: the one event that touches neither the
    document nor the webview. *)
Definition is_prompt (e : Event) : bool :=
  match e with Prompted _ => true | _ => false end.

(** The message [first] is received and its handler awaits the input box;
    meanwhile [second] is received and handled; then the box is answered and
    the first handler goes on.  [None] when [first] does not prompt. *)
Definition prompt_race (toLowerCase : jsstring → jsstring)
    (first second : Message) (answer : option jsstring) (now : N) (h : Host)
  : option (Host * option unit) :=
  match start (onDidReceiveMessage toLowerCase first) now h with
  | Awaiting h1 resume =>
    let '(h2, _) := run (onDidReceiveMessage toLowerCase second) None now h1 in
    Some (run (resume answer) answer now h2)
  | Finished _ _ => None
  end.

(** A value without numbers, as the values of boards are. *)
Fixpoint number_free (v : json) : bool :=
  match v with
  | JNumber _ => false
  | JNull | JBool _ | JString _ => true
  | JArray elements => forallb number_free elements
  | JObject members => forallb (λ m, number_free m.2) members
  end.

(** The parser reads the value [v] back from its serialization at every
    indentation, in front of every text, given fuel for its length. *)
Definition reads_back (v : json) : Prop :=
  ∀ indent rest fuel,
    forallb is_ws indent = true →
    (length (serialize indent v) ≤ fuel)%nat →
    parse_value fuel (serialize indent v ++ rest) = Some (v, rest).

(** The cards of the board, column after column. *)
Definition all_cards (b : Board) : list Card.t :=
  concat (Column.cards <$> columns b).

(** The drop of the dragged card on the column [colId], from the lookup of
    the index on: [afterElement] is the id of the card element that
    [getDragAfterElement] gave, or [None] when it gave [undefined].  The
    column is looked up in the state, which throws when it is not there, and
    [findIndex] gives -1 for a card that is not in it. *)
Definition ondrop (state : Board) (fromColumn colId draggedId : jsstring)
    (afterElement : option jsstring) : completion * option Message :=
  match find_column colId (columns state) with
  | None => (TypeError state, None)
  | Some (_, col) =>
    let index :=
      match afterElement with
      | Some id =>
        match find_card id (Column.cards col) with
        | Some (k, _) => Z.of_nat k
        | None => -1
        end
      | None => Z.of_nat (length (Column.cards col))
      end in
    ondrop_card state fromColumn colId draggedId index
  end.

(** ** [createBoard]: the name of the file

    [name.replace(/[^a-z0-9\- ]/gi, '')]: with the [i] flag and without the
    [u] flag a code unit is in the class when its upper-case form is that of
    a member, and a code unit from 128 on is never folded onto an ASCII one,
    so the class is that of the ASCII letters and digits, the hyphen and the
    space. *)
Definition is_safe_unit (c : code_unit) : bool :=
  ((97 <=? c) && (c <=? 122) || (65 <=? c) && (c <=? 90)
   || (48 <=? c) && (c <=? 57) || (c =? cu "-") || (c =? cu " "))%N.

Definition safeName (name : jsstring) : jsstring :=
  trim (filter (λ c, is_safe_unit c = true) name).

Definition filename (name : jsstring) : jsstring :=
  (match safeName name with [] => lit "untitled" | safe => safe end)
    ++ lit ".board.json".

(** The file that [createBoard] is about to create for the answer of its
    input box: none when the box was dismissed or left empty. *)
Definition createBoard_filename (name : option jsstring) : option jsstring :=
  match name with
  | Some ((_ :: _) as name) => Some (filename name)
  | _ => None
  end.

(** The code units of the ids that the editor generates. *)
Definition is_id_unit (c : code_unit) : bool :=
  is_lower_alnum c || (c =? cu "-")%N.

(** ** [getDragAfterElement]

    The [reduce] over the card elements that are not being dragged, each
    with the [offset] computed for it from its bounding box (the pointer's
    [y] minus the centre of the box).  [number] is the type of the offsets
    with its comparison; [None] is the initial [{ offset: -Infinity }],
    which every offset exceeds. *)
Section Drag.
Context {number element : Type}.
Variable ltb : number → number → bool.
Variable zero : number.

Definition closer (closest : option (number * element))
    (child : number * element) : option (number * element) :=
  if ltb child.1 zero
     && match closest with
        | Some c => ltb c.1 child.1
        | None => true
        end
  then Some child
  else closest.

Definition getDragAfterElement (children : list (number * element))
  : option element :=
  snd <$> foldl closer None children.
End Drag.

(** * Properties *)

(** ** [splice] *)

Lemma relative_start_nat len (i : nat) :
  relative_start len (Z.of_nat i) = Nat.min i len.
Proof. unfold relative_start. case_match; lia. Qed.

Lemma relative_start_le len start : (relative_start len start ≤ len)%nat.
Proof. unfold relative_start. case_match; lia. Qed.

Lemma splice_remove {A} (l : list A) (i : nat) x :
  l !! i = Some x → splice l (Z.of_nat i) 1 [] = (delete i l, [x]).
Proof.
  intros Hi. pose proof (lookup_lt_Some _ _ _ Hi) as Hlt.
  unfold splice. rewrite relative_start_nat, Nat.min_l by lia.
  replace (Z.to_nat (Z.min (Z.max 1 0) (Z.of_nat (length l - i)))) with 1%nat
    by lia.
  f_equal.
  - rewrite delete_take_drop. simpl. f_equal. f_equal. lia.
  - rewrite (drop_S _ _ _ Hi). reflexivity.
Qed.

(** The element that [cards.splice(fromIdx, 1)] hands back is the one
    [findIndex] stopped at. *)
Lemma splice_found {A} (P : A → Prop) `{!∀ x, Decision (P x)} l i x :
  list_find P l = Some (i, x) → (splice l (Z.of_nat i) 1 []).2 = [x].
Proof.
  intros [Hi _]%list_find_Some. by rewrite (splice_remove _ _ _ Hi).
Qed.

Lemma splice_insert {A} (l : list A) start x :
  splice l start 0 [x]
  = (take (relative_start (length l) start) l
       ++ x :: drop (relative_start (length l) start) l, []).
Proof.
  unfold splice. simpl.
  replace (Z.to_nat (Z.min 0 _)) with 0%nat by lia.
  rewrite Nat.add_0_r, take_0. reflexivity.
Qed.

Lemma insert_at_lookup {A} p (x : A) l :
  (p ≤ length l)%nat → insert_at p x l !! p = Some x.
Proof.
  intros Hp. unfold insert_at.
  apply list_lookup_middle. rewrite length_take. lia.
Qed.

Lemma insert_at_delete {A} p (x : A) l :
  (p ≤ length l)%nat → delete p (insert_at p x l) = l.
Proof.
  intros Hp. unfold insert_at.
  rewrite <- (take_drop p l) at 3.
  rewrite <- (delete_middle (take p l) (drop p l) x).
  f_equal. rewrite length_take. lia.
Qed.

Lemma insert_at_length {A} p (x : A) l :
  length (insert_at p x l) = S (length l).
Proof.
  unfold insert_at. rewrite length_app. simpl.
  rewrite length_take, length_drop. lia.
Qed.

Lemma insert_at_end {A} (x : A) l : insert_at (length l) x l = l ++ [x].
Proof. unfold insert_at. by rewrite take_ge, drop_ge by lia. Qed.

(** ** [moveCard] when everything resolves *)

Section moveCard_resolved.
Context (state : Board) (fromId toId cardId : jsstring).
Context (fi ti fromIdx : nat) (fc tc : Column.t) (card : Card.t).
Hypothesis Hfrom : find_column fromId (columns state) = Some (fi, fc).
Hypothesis Hto : find_column toId (columns state) = Some (ti, tc).
Hypothesis Hcard : find_card cardId (Column.cards fc) = Some (fromIdx, card).

Let rest := delete fromIdx (Column.cards fc).
Let toCards := if decide (ti = fi) then rest else Column.cards tc.

Lemma moveCard_resolved toIndex :
  moveCard state fromId toId cardId toIndex
  = Returns
      {| columns :=
           set_cards ti
             (insert_at (landing fromId toId fromIdx toIndex toCards)
                        card toCards)
             (set_cards fi rest (columns state)) |}.
Proof.
  unfold moveCard. rewrite Hfrom, Hto, Hcard.
  apply list_find_Some in Hcard as (Hi & _ & _).
  rewrite (splice_remove _ _ _ Hi), splice_insert. reflexivity.
Qed.

Lemma landing_le toIndex :
  (landing fromId toId fromIdx toIndex toCards ≤ length toCards)%nat.
Proof. apply relative_start_le. Qed.

Lemma from_lookup : columns state !! fi = Some fc.
Proof. by apply list_find_Some in Hfrom as (? & _ & _). Qed.

Lemma to_lookup : columns state !! ti = Some tc.
Proof. by apply list_find_Some in Hto as (? & _ & _). Qed.

Lemma card_lookup : Column.cards fc !! fromIdx = Some card.
Proof. by apply list_find_Some in Hcard as (? & _ & _). Qed.
End moveCard_resolved.

(** ** [set_cards] *)

Lemma set_cards_lookup_eq i cs cols c :
  cols !! i = Some c →
  set_cards i cs cols !! i = Some (Column.mk (Column.id c) (Column.title c) cs).
Proof. intros H. unfold set_cards. by rewrite list_lookup_alter_eq, H. Qed.

Lemma set_cards_lookup_ne i j cs cols :
  i ≠ j → set_cards i cs cols !! j = cols !! j.
Proof. intros H. unfold set_cards. by rewrite list_lookup_alter_ne. Qed.

Lemma set_cards_length i cs cols : length (set_cards i cs cols) = length cols.
Proof. apply length_alter. Qed.

Lemma total_cards_set_cards i cs cols c :
  cols !! i = Some c →
  (total_cards {| columns := set_cards i cs cols |} + length (Column.cards c)
   = total_cards {| columns := cols |} + length cs)%nat.
Proof.
  unfold total_cards, set_cards. simpl. revert i.
  induction cols as [|c0 cols IH]; intros [|i] H; simplify_eq/=; [lia|].
  specialize (IH _ H). lia.
Qed.

(** ** The claims about [moveCard] *)

(** C2.  When the source column, the destination column and the card all
    resolve, [moveCard] returns, the board holds as many cards as before, and
    the destination column holds the moved card itself: the record found in
    the source column, with the id and the title it had. *)
Theorem moveCard_conservation state fromId toId cardId toIndex
    fi fc ti tc fromIdx card :
  find_column fromId (columns state) = Some (fi, fc) →
  find_column toId (columns state) = Some (ti, tc) →
  find_card cardId (Column.cards fc) = Some (fromIdx, card) →
  ∃ state' tc' p,
    moveCard state fromId toId cardId toIndex = Returns state' ∧
    total_cards state' = total_cards state ∧
    columns state' !! ti = Some tc' ∧
    Column.cards tc' !! p = Some card ∧
    Card.id card = cardId.
Proof.
  intros Hfrom Hto Hcard.
  pose proof (from_lookup _ _ _ _ Hfrom) as Hfi.
  pose proof (to_lookup _ _ _ _ Hto) as Hti.
  pose proof (card_lookup _ _ _ _ Hcard) as Hci.
  set (rest := delete fromIdx (Column.cards fc)).
  set (toCards := if decide (ti = fi) then rest else Column.cards tc).
  set (p := landing fromId toId fromIdx toIndex toCards).
  assert (Hp : (p ≤ length toCards)%nat) by apply relative_start_le.
  assert (Hrest : S (length rest) = length (Column.cards fc)).
  { unfold rest. pose proof (lookup_lt_Some _ _ _ Hci).
    rewrite length_delete by eauto. lia. }
  assert (∃ tc1, set_cards fi rest (columns state) !! ti = Some tc1 ∧
                 Column.cards tc1 = toCards) as (tc1 & Htc1 & Hcards1).
  { unfold toCards. destruct (decide (ti = fi)) as [->|Hne].
    - eexists. split; [by apply set_cards_lookup_eq|done].
    - exists tc. split; [|done]. by rewrite set_cards_lookup_ne. }
  eexists _, _, p. split; [by eapply moveCard_resolved|].
  split; [|split; [by eapply set_cards_lookup_eq|split]].
  - pose proof (total_cards_set_cards ti (insert_at p card toCards) _ _ Htc1)
      as H1.
    pose proof (total_cards_set_cards fi rest _ _ Hfi) as H2.
    rewrite insert_at_length, Hcards1 in H1. destruct state as [cols].
    simpl in *.
    change (total_cards
              {| columns := set_cards ti (insert_at p card toCards)
                                      (set_cards fi rest cols) |}
            = total_cards {| columns := cols |}).
    lia.
  - simpl. by apply insert_at_lookup.
  - by apply list_find_Some in Hcard as (_ & ? & _).
Qed.

(** The board after a [moveCard] whose ids all resolve: the destination
    column holds its cards after the removal with the card inserted at
    [landing], the source column (when it is another one) has lost the card,
    and no other column is touched. *)
Lemma moveCard_shape state fromId toId cardId toIndex
    fi fc ti tc fromIdx card :
  find_column fromId (columns state) = Some (fi, fc) →
  find_column toId (columns state) = Some (ti, tc) →
  find_card cardId (Column.cards fc) = Some (fromIdx, card) →
  let rest := delete fromIdx (Column.cards fc) in
  let toCards := if decide (ti = fi) then rest else Column.cards tc in
  let p := landing fromId toId fromIdx toIndex toCards in
  ∃ state',
    moveCard state fromId toId cardId toIndex = Returns state' ∧
    (p ≤ length toCards)%nat ∧
    length (columns state') = length (columns state) ∧
    (∀ k, k ≠ fi → k ≠ ti → columns state' !! k = columns state !! k) ∧
    columns state' !! ti
      = Some (Column.mk (Column.id tc) (Column.title tc)
                        (insert_at p card toCards)) ∧
    (ti ≠ fi →
     columns state' !! fi
       = Some (Column.mk (Column.id fc) (Column.title fc) rest)).
Proof.
  intros Hfrom Hto Hcard rest toCards p.
  pose proof (from_lookup _ _ _ _ Hfrom) as Hfi.
  pose proof (to_lookup _ _ _ _ Hto) as Hti.
  eexists. split; [by eapply moveCard_resolved|]. simpl.
  split; [apply relative_start_le|].
  split; [by rewrite !set_cards_length|].
  split; [intros k ??; by rewrite !set_cards_lookup_ne|].
  split.
  - destruct (decide (ti = fi)) as [->|Hne].
    + simplify_eq.
      by rewrite (set_cards_lookup_eq _ _ _ _ (set_cards_lookup_eq _ _ _ _ Hfi)).
    + erewrite set_cards_lookup_eq; [done|]. by rewrite set_cards_lookup_ne.
  - intros Hne. rewrite set_cards_lookup_ne by done.
    by apply set_cards_lookup_eq.
Qed.

(** C10.  When the source column, the destination column and the card all
    resolve, the cards other than the moved one keep their order in the
    source and in the destination column (taking the moved card out of the
    column after the call gives the column before the call without it), and
    the columns other than these two are the same as before. *)
Theorem moveCard_order_preserved state fromId toId cardId toIndex
    fi fc ti tc fromIdx card :
  find_column fromId (columns state) = Some (fi, fc) →
  find_column toId (columns state) = Some (ti, tc) →
  find_card cardId (Column.cards fc) = Some (fromIdx, card) →
  ∃ state' fc' tc' p,
    moveCard state fromId toId cardId toIndex = Returns state' ∧
    length (columns state') = length (columns state) ∧
    (∀ k, k ≠ fi → k ≠ ti → columns state' !! k = columns state !! k) ∧
    columns state' !! fi = Some fc' ∧
    columns state' !! ti = Some tc' ∧
    Column.cards tc' !! p = Some card ∧
    if decide (ti = fi)
    then delete p (Column.cards tc') = delete fromIdx (Column.cards fc)
    else Column.cards fc' = delete fromIdx (Column.cards fc) ∧
         delete p (Column.cards tc') = Column.cards tc.
Proof.
  intros Hfrom Hto Hcard.
  destruct (moveCard_shape _ _ _ _ toIndex _ _ _ _ _ _ Hfrom Hto Hcard)
    as (state' & Hmove & Hp & Hlen & Hother & Hdst & Hsrc).
  destruct (decide (ti = fi)) as [->|Hne].
  - eexists state', _, _, _.
    split_and!; [done..|by apply insert_at_lookup|].
    by apply insert_at_delete.
  - eexists state', _, _, _.
    split_and!; [done|done|done|by apply Hsrc|done|
                 by apply insert_at_lookup|done|].
    by apply insert_at_delete.
Qed.

(** The scenario of the specification: [c1] dropped on column [b] at index 0
    leaves [a] with [c2] only and gives [b] the card [c1]. *)
Example moveCard_scenario :
  moveCard scenario_board (lit "a") (lit "b") (lit "c1") (Some 0)
  = Returns
      {| columns := [Column.mk (lit "a") (lit "A") [card_c2];
                     Column.mk (lit "b") (lit "B") [card_c1]] |}.
Proof. reflexivity. Qed.

(** An index beyond the end of the column, which no drop computes, is
    clamped by [splice]: [c1], at index 0 of the two cards of column [a],
    moved to index 5 of the same column ends at index 1, the last one. *)
Example moveCard_same_column_beyond_end :
  find_column (lit "a") (columns scenario_board) = Some (0%nat, column_a) ∧
  find_card (lit "c1") (Column.cards column_a) = Some (0%nat, card_c1) ∧
  Z.of_nat 0 < 5 ∧
  ∃ state' col',
    moveCard scenario_board (lit "a") (lit "a") (lit "c1") (Some 5)
      = Returns state' ∧
    columns state' !! 0%nat = Some col' ∧
    Column.cards col' !! Z.to_nat (5 - 1) ≠ Some card_c1 ∧
    Column.cards col' !! 1%nat = Some card_c1.
Proof.
  split_and!; [reflexivity..|].
  eexists _, _. split_and!; [reflexivity|reflexivity|discriminate|reflexivity].
Qed.

(** In a column of [n] cards, moving the card found at index [i] to the
    requested index [j] of the same column, with [i < j], leaves it at index
    [min (j-1) (n-1)], whatever [j] is.  With the index left [undefined] the
    card is appended to the end. *)
Lemma moveCard_same_column_reorder state colId cardId ci col i card :
  find_column colId (columns state) = Some (ci, col) →
  find_card cardId (Column.cards col) = Some (i, card) →
  let n := Z.of_nat (length (Column.cards col)) in
  (∀ j, Z.of_nat i < j →
    ∃ state' col',
      moveCard state colId colId cardId (Some j) = Returns state' ∧
      columns state' !! ci = Some col' ∧
      Column.cards col' !! Z.to_nat (Z.min (j - 1) (n - 1)) = Some card) ∧
  (∃ state' col',
      moveCard state colId colId cardId None = Returns state' ∧
      columns state' !! ci = Some col' ∧
      Column.cards col' = delete i (Column.cards col) ++ [card]).
Proof.
  intros Hcol Hcard n.
  pose proof (lookup_lt_Some _ _ _ (card_lookup _ _ _ _ Hcard)) as Hlt.
  assert (Hrest : Z.of_nat (length (delete i (Column.cards col))) = n - 1).
  { rewrite length_delete by (apply lookup_lt_is_Some; lia). lia. }
  split.
  - intros j Hij.
    destruct (moveCard_shape _ _ _ _ (Some j) _ _ _ _ _ _ Hcol Hcol Hcard)
      as (state' & Hmove & _ & _ & _ & Hdst & _).
    rewrite decide_True in Hdst by done.
    eexists _, _. split_and!; [done..|]. simpl.
    set (rest := delete i (Column.cards col)) in *.
    assert (Hland : landing colId colId i (Some j) rest
                    = Z.to_nat (Z.min (j - 1) (n - 1))).
    { unfold landing, finalIndex, relative_start.
      rewrite bool_decide_eq_true_2 by done.
      replace (Z.of_nat i <? j) with true by (symmetry; lia).
      replace (j >? Z.of_nat i) with true by (symmetry; lia).
      simpl. replace (j - 1 <? 0) with false by (symmetry; lia). lia. }
    rewrite <- Hland. apply insert_at_lookup, relative_start_le.
  - destruct (moveCard_shape _ _ _ _ None _ _ _ _ _ _ Hcol Hcol Hcard)
      as (state' & Hmove & _ & _ & _ & Hdst & _).
    rewrite decide_True in Hdst by done.
    eexists _, _. split_and!; [done..|]. simpl.
    unfold landing. simpl. rewrite relative_start_nat, Nat.min_id.
    apply insert_at_end.
Qed.

(** C1.  Moving the card found at index [i] of a column to an index [j] of
    the same column that is behind it ([i < j], up to the end of the column)
    leaves it at index [j-1]: the destination index is decremented by one
    before the insertion, since the removal has shifted the cards behind
    [i].  With the index left [undefined] the card is appended to the
    end. *)
Theorem moveCard_same_column_forward state colId cardId ci col i card :
  find_column colId (columns state) = Some (ci, col) →
  find_card cardId (Column.cards col) = Some (i, card) →
  (∀ j, Z.of_nat i < j ≤ Z.of_nat (length (Column.cards col)) →
    finalIndex colId colId i (Some j) = Some (j - 1) ∧
    ∃ state' col',
      moveCard state colId colId cardId (Some j) = Returns state' ∧
      columns state' !! ci = Some col' ∧
      Column.cards col' !! Z.to_nat (j - 1) = Some card) ∧
  (∃ state' col',
      moveCard state colId colId cardId None = Returns state' ∧
      columns state' !! ci = Some col' ∧
      Column.cards col' = delete i (Column.cards col) ++ [card]).
Proof.
  intros Hcol Hcard.
  destruct (moveCard_same_column_reorder _ _ _ _ _ _ _ Hcol Hcard)
    as [Hsome Hnone].
  split; [|exact Hnone]. intros j [Hij Hjn]. split.
  - unfold finalIndex. rewrite bool_decide_eq_true_2 by done.
    replace (Z.of_nat i <? j) with true by (symmetry; lia).
    by replace (j >? Z.of_nat i) with true by (symmetry; lia).
  - destruct (Hsome j Hij) as (state' & col' & Hmove & Hci & Hcard').
    exists state', col'. split_and!; [done..|].
    by replace (Z.min (j - 1) (Z.of_nat (length (Column.cards col)) - 1))
      with (j - 1) in Hcard' by lia.
Qed.

Lemma moveCard_same_column_forward_witness :
  (finalIndex (lit "a") (lit "a") 0%nat (Some 2) = Some 1 ∧
   ∃ state' col',
     moveCard scenario_board (lit "a") (lit "a") (lit "c1") (Some 2)
       = Returns state' ∧
     columns state' !! 0%nat = Some col' ∧
     Column.cards col' !! 1%nat = Some card_c1) ∧
  (∃ state' col',
     moveCard scenario_board (lit "a") (lit "a") (lit "c1") None
       = Returns state' ∧
     columns state' !! 0%nat = Some col' ∧
     Column.cards col' = [card_c2; card_c1]).
Proof.
  pose proof (moveCard_same_column_forward scenario_board (lit "a")
                (lit "c1") 0%nat column_a 0%nat card_c1 eq_refl eq_refl)
    as [Hsome Hnone].
  split; [|exact Hnone].
  exact (Hsome 2 ltac:(vm_compute; split; [reflexivity|discriminate])).
Defined.

(** ** Handlers *)

#[local] Arguments splice : simpl never.
#[local] Arguments serialize_board : simpl never.
#[local] Arguments JSON_parse : simpl never.
#[local] Arguments replace_range : simpl never.

Lemma run_bind {A B} (p : Proc A) (f : A → Proc B) answer now h :
  run (p ≫= f) answer now h
  = match run p answer now h with
    | (h', Some a) => run (f a) answer now h'
    | (h', None) => (h', None)
    end.
Proof.
  revert h. induction p; intros h; simpl; try done; unfold mbind, Proc_bind in *;
    simpl; auto.
Qed.

(** The listener on a document that holds the board [data]: the branch of
    the message runs, and when it leaves [dirty] set, the range of the text
    read at the start is replaced by the serialized board, and the document
    is saved. *)
Lemma run_onDidReceiveMessage lower msg answer now h data :
  load (document h) = Some data →
  run (onDidReceiveMessage lower msg) answer now h
  = match run (branch lower data msg) answer now h with
    | (h1, Some (data', true)) =>
      ({| document := replace_range (length (document h))
                        (serialize_board data') (document h1);
          log := Saved :: Edited (serialize_board data') :: log h1 |},
       Some tt)
    | (h1, Some (_, false)) => (h1, Some tt)
    | (h1, None) => (h1, None)
    end.
Proof.
  unfold load. intros Hload.
  destruct (JSON_parse (document h)) as [parsed|] eqn:Hparse; [|done].
  simpl in Hload. unfold onDidReceiveMessage.
  change (run (getText ≫= _) answer now h) with
    (run (match JSON_parse (document h) with
          | Some parsed =>
            match board_of_json parsed with
            | Some data =>
              '(data, dirty) ← branch lower data msg;
              if dirty : bool then
                _ ← applyEdit (length (document h)) (serialize_board data);
                save
              else mret tt
            | None => NotABoard
            end
          | None => mret tt
          end) answer now h).
  rewrite Hparse, Hload, run_bind.
  destruct (run (branch lower data msg) answer now h) as [h1 [[data' [|]]|]];
    reflexivity.
Qed.

Lemma replace_range_all (newText doc : text) :
  replace_range (length doc) newText doc = newText.
Proof. unfold replace_range. by rewrite drop_all, app_nil_r. Qed.

Lemma host_eta h : {| document := document h; log := log h |} = h.
Proof. by destruct h. Qed.

(** C8.  On a document whose text does not parse, the listener returns at
    once whatever the message: the document is the same, nothing is written,
    saved, prompted or posted, and nothing is thrown.  [sendData] on such a
    document posts nothing, so the webview keeps the board it has. *)
Theorem parse_failure_is_noop lower msg answer now h :
  JSON_parse (document h) = None →
  run (onDidReceiveMessage lower msg) answer now h = (h, Some tt) ∧
  run sendData answer now h = (h, Some tt).
Proof.
  intros Hparse. split.
  - unfold onDidReceiveMessage.
    change (run (getText ≫= ?f) answer now h)
      with (run (f (document h)) answer now h).
    cbv beta. by rewrite Hparse.
  - unfold sendData.
    change (run (getText ≫= ?f) answer now h)
      with (run (f (document h)) answer now h).
    cbv beta. by rewrite Hparse.
Qed.

Lemma parse_failure_is_noop_witness :
  let h := {| document := lit "{ columns: [ "; log := [] |} in
  run (onDidReceiveMessage ascii_toLowerCase (DeleteColumn (lit "a")))
      None 0%N h = (h, Some tt) ∧
  run sendData None 0%N h = (h, Some tt).
Proof.
  exact (parse_failure_is_noop ascii_toLowerCase (DeleteColumn (lit "a"))
           None 0%N {| document := lit "{ columns: [ "; log := [] |}
           eq_refl).
Defined.

(** X13.  The dispatcher drops a message whose column or card does not
    resolve: the document is left as it is, and nothing is written, saved or
    posted ([add-card] has asked for the title by then). *)
Lemma unresolved_is_dropped lower msg answer now h data :
  load (document h) = Some data →
  unresolved data msg →
  ∃ prompts,
    run (onDidReceiveMessage lower msg) answer now h
      = ({| document := document h; log := prompts ++ log h |}, Some tt) ∧
    forallb is_prompt prompts = true.
Proof.
  intros Hload Hun. rewrite (run_onDidReceiveMessage _ _ _ _ _ _ Hload).
  destruct msg; simpl in Hun; try done.
  - exists []. simpl. by rewrite Hun, host_eta.
  - exists []. simpl. by rewrite Hun, host_eta.
  - exists [Prompted (lit "New Card Title")].
    simpl. destruct answer as [[|c title]|]; simpl; try done. by rewrite Hun.
  - exists []. simpl.
    destruct (find_column columnId (columns data)) as [[i col]|]; simpl.
    + by rewrite Hun, host_eta.
    + by rewrite host_eta.
  - exists []. simpl.
    destruct (find_column fromId (columns data)) as [[fi fcol]|],
             (find_column toId (columns data)) as [[ti tcol]|];
      simpl; rewrite ?host_eta; try done; by destruct Hun.
Qed.

(** [moveCard] returns the state as it is when the card is not in the
    source column. *)
Lemma moveCard_unresolved_card state fromId toId cardId toIndex fi fc :
  find_column fromId (columns state) = Some (fi, fc) →
  find_card cardId (Column.cards fc) = None →
  moveCard state fromId toId cardId toIndex = Returns state.
Proof. intros Hfrom Hcard. unfold moveCard. by rewrite Hfrom, Hcard. Qed.

(** [moveCard] throws at once when the source column is not on the board. *)
Lemma moveCard_unresolved_source state fromId toId cardId toIndex :
  find_column fromId (columns state) = None →
  moveCard state fromId toId cardId toIndex = TypeError state.
Proof. intros Hfrom. unfold moveCard. by rewrite Hfrom. Qed.

(** When the destination column is not on the board, [moveCard] has taken
    the card out of its column by the time it throws. *)
Lemma moveCard_throws_after_removal state fromId toId cardId toIndex
    fi fc fromIdx card :
  find_column fromId (columns state) = Some (fi, fc) →
  find_card cardId (Column.cards fc) = Some (fromIdx, card) →
  find_column toId (columns state) = None →
  ∃ state',
    moveCard state fromId toId cardId toIndex = TypeError state' ∧
    columns state' !! fi
      = Some (Column.mk (Column.id fc) (Column.title fc)
                        (delete fromIdx (Column.cards fc))) ∧
    S (total_cards state') = total_cards state.
Proof.
  intros Hfrom Hcard Hto.
  pose proof (from_lookup _ _ _ _ Hfrom) as Hfi.
  pose proof (card_lookup _ _ _ _ Hcard) as Hci.
  unfold moveCard. rewrite Hfrom, Hcard, Hto, (splice_remove _ _ _ Hci).
  eexists. split; [done|]. split; [by apply set_cards_lookup_eq|].
  pose proof (total_cards_set_cards fi (delete fromIdx (Column.cards fc))
                _ _ Hfi) as H.
  pose proof (lookup_lt_Some _ _ _ Hci).
  rewrite length_delete in H by eauto.
  destruct state as [cols]. simpl in *. lia.
Qed.

(** C4 fails on [moveCard], which guards the lookup of the card only.  When
    the source column does not resolve, a [TypeError] is thrown.  When the
    destination column does not resolve, the card is first taken out of its
    column and then a [TypeError] is thrown, which leaves a board with one
    card less. *)
Theorem moveCard_unresolved_column state fromId toId cardId toIndex :
  (find_column fromId (columns state) = None →
   moveCard state fromId toId cardId toIndex = TypeError state) ∧
  (∀ fi fc fromIdx card,
     find_column fromId (columns state) = Some (fi, fc) →
     find_card cardId (Column.cards fc) = Some (fromIdx, card) →
     find_column toId (columns state) = None →
     ∃ state',
       moveCard state fromId toId cardId toIndex = TypeError state' ∧
       columns state' !! fi
         = Some (Column.mk (Column.id fc) (Column.title fc)
                           (delete fromIdx (Column.cards fc))) ∧
       S (total_cards state') = total_cards state).
Proof.
  split.
  - apply moveCard_unresolved_source.
  - intros. by eapply moveCard_throws_after_removal.
Qed.

Lemma moveCard_unresolved_column_witness :
  moveCard scenario_board (lit "gone") (lit "b") (lit "c1") (Some 0)
    = TypeError scenario_board ∧
  ∃ state',
    moveCard scenario_board (lit "a") (lit "gone") (lit "c1") (Some 0)
      = TypeError state' ∧
    columns state' !! 0%nat
      = Some (Column.mk (lit "a") (lit "A") [card_c2]) ∧
    S (total_cards state') = total_cards scenario_board.
Proof.
  split.
  - exact (proj1 (moveCard_unresolved_column scenario_board (lit "gone")
                    (lit "b") (lit "c1") (Some 0)) eq_refl).
  - exact (proj2 (moveCard_unresolved_column scenario_board (lit "a")
                    (lit "gone") (lit "c1") (Some 0))
                 0%nat column_a 0%nat card_c1 eq_refl eq_refl eq_refl).
Defined.

(** ** [move-column] *)

Lemma insert_at_lookup_lt {A} p (x : A) l k :
  (k < p ≤ length l)%nat → insert_at p x l !! k = l !! k.
Proof.
  intros Hk. unfold insert_at.
  rewrite lookup_app_l by (rewrite length_take; lia).
  apply lookup_take_lt. lia.
Qed.

Lemma insert_at_lookup_gt {A} p (x : A) l k :
  (p ≤ length l)%nat → (p < k)%nat → insert_at p x l !! k = l !! (k - 1)%nat.
Proof.
  intros Hp Hk. unfold insert_at.
  rewrite lookup_app_r by (rewrite length_take; lia).
  rewrite length_take, Nat.min_l by lia.
  destruct (k - p)%nat as [|m] eqn:Hm; [lia|]. simpl.
  rewrite lookup_drop. f_equal. lia.
Qed.

(** The [move-column] branch on two different columns: the column found
    for [fromId] is taken out and put back at the index found for [toId]. *)
Lemma branch_MoveColumn lower data fromId toId fi fcol ti tcol :
  find_column fromId (columns data) = Some (fi, fcol) →
  find_column toId (columns data) = Some (ti, tcol) →
  fi ≠ ti →
  branch lower data (MoveColumn fromId toId)
  = Ret ({| columns := insert_at ti fcol (delete fi (columns data)) |}, true).
Proof.
  intros Hfrom Hto Hne.
  pose proof (from_lookup _ _ _ _ Hfrom) as Hfi.
  pose proof (lookup_lt_Some _ _ _ Hfi) as Hflt.
  pose proof (lookup_lt_Some _ _ _ (to_lookup _ _ _ _ Hto)) as Htlt.
  unfold branch. rewrite Hfrom, Hto, decide_True by done.
  rewrite (splice_remove _ _ _ Hfi), splice_insert.
  cbn [fst]. rewrite relative_start_nat, Nat.min_l; [done|].
  rewrite length_delete by eauto. lia.
Qed.

(** C5.  When [fromId] and [toId] resolve to two different columns, the
    [move-column] message puts the column of [fromId] at the index that the
    column of [toId] has on the board, as found by [findIndex] and used as
    it is; the other columns keep their order, and the column of [toId] is
    next to the moved one, on the side the moved column came from.  The
    board is written to the document and saved. *)
Theorem move_column_to_slot lower answer now h data fromId toId
    fi fcol ti tcol :
  load (document h) = Some data →
  find_column fromId (columns data) = Some (fi, fcol) →
  find_column toId (columns data) = Some (ti, tcol) →
  fi ≠ ti →
  ∃ data' h',
    run (onDidReceiveMessage lower (MoveColumn fromId toId)) answer now h
      = (h', Some tt) ∧
    document h' = serialize_board data' ∧
    log h' = Saved :: Edited (serialize_board data') :: log h ∧
    columns data' !! ti = Some fcol ∧
    delete ti (columns data') = delete fi (columns data) ∧
    columns data' !! (if decide (fi < ti)%nat then ti - 1 else ti + 1)%nat
      = Some tcol.
Proof.
  intros Hload Hfrom Hto Hne.
  pose proof (from_lookup _ _ _ _ Hfrom) as Hfi.
  pose proof (to_lookup _ _ _ _ Hto) as Hti.
  pose proof (lookup_lt_Some _ _ _ Hfi) as Hflt.
  pose proof (lookup_lt_Some _ _ _ Hti) as Htlt.
  assert (Hlen : length (delete fi (columns data))
                 = (length (columns data) - 1)%nat).
  { rewrite length_delete by eauto. done. }
  rewrite (run_onDidReceiveMessage _ _ _ _ _ _ Hload).
  rewrite (branch_MoveColumn _ _ _ _ _ _ _ _ Hfrom Hto Hne).
  cbn [run]. eexists {| columns := _ |}, _. split; [done|].
  cbn [document log columns]. rewrite replace_range_all.
  split_and!; [done|done|apply insert_at_lookup; lia|
               apply insert_at_delete; lia|].
  case_decide.
  - rewrite insert_at_lookup_lt by lia.
    rewrite list_lookup_delete_ge by lia. rewrite <- Hti. f_equal. lia.
  - rewrite insert_at_lookup_gt by lia.
    rewrite list_lookup_delete_lt by lia. rewrite <- Hti. f_equal. lia.
Qed.

(** ** [rename-column] *)

Lemma set_title_lookup_eq i t cols c :
  cols !! i = Some c →
  set_title i t cols !! i = Some (Column.mk (Column.id c) t (Column.cards c)).
Proof. intros H. unfold set_title. by rewrite list_lookup_alter_eq, H. Qed.

Lemma set_title_lookup_ne i j t cols :
  i ≠ j → set_title i t cols !! j = cols !! j.
Proof. intros H. unfold set_title. by rewrite list_lookup_alter_ne. Qed.

Lemma trim_start_blank s : forallb is_js_space s = true → trim_start s = [].
Proof.
  induction s as [|c s IH]; simpl; [done|].
  intros [Hc Hs]%andb_prop. rewrite Hc. auto.
Qed.

(** A text of white space only trims to the empty string. *)
Lemma trim_blank s : forallb is_js_space s = true → trim s = [].
Proof. intros H. unfold trim. by rewrite (trim_start_blank _ H). Qed.

(** C6, as stated, fails: the dispatcher applies a [rename-column] message
    whose [newTitle] is two spaces, and column [a] is titled with them. *)
Lemma rename_blank_is_applied :
  let h := {| document := serialize_board scenario_board; log := [] |} in
  trim (lit "  ") = [] ∧
  find_column (lit "a") (columns scenario_board) = Some (0%nat, column_a) ∧
  ∃ h',
    run (onDidReceiveMessage ascii_toLowerCase
           (RenameColumn (lit "a") (lit "  "))) None 0%N h = (h', Some tt) ∧
    load (document h')
      = Some {| columns := [Column.mk (lit "a") (lit "  ") [card_c1; card_c2];
                            column_b] |}.
Proof.
  split_and!; [reflexivity..|]. eexists. split; vm_compute; reflexivity.
Qed.

(** C6, amended.  The rejection is the webview's: when the edited title
    trims to the empty string, [saveRename] posts no message and puts the
    title of the column back, so nothing reaches the document.  The
    dispatcher applies every [rename-column] message whose column resolves:
    the column gets [newTitle], whatever it is, and the board is written. *)
Theorem rename_rejected_by_saveRename_only :
  (∀ col textContent,
     trim textContent = [] →
     saveRename col textContent = (None, Column.title col)) ∧
  (∀ lower answer now h data columnId newTitle i col,
     load (document h) = Some data →
     find_column columnId (columns data) = Some (i, col) →
     ∃ data',
       run (onDidReceiveMessage lower (RenameColumn columnId newTitle))
           answer now h
         = ({| document := serialize_board data';
               log := Saved :: Edited (serialize_board data') :: log h |},
            Some tt) ∧
       columns data' !! i
         = Some (Column.mk (Column.id col) newTitle (Column.cards col)) ∧
       ∀ k, k ≠ i → columns data' !! k = columns data !! k).
Proof.
  split.
  - intros col textContent Htrim. unfold saveRename. by rewrite Htrim.
  - intros lower answer now h data columnId newTitle i col Hload Hcol.
    pose proof (from_lookup _ _ _ _ Hcol) as Hi.
    rewrite (run_onDidReceiveMessage _ _ _ _ _ _ Hload).
    unfold branch. rewrite Hcol. cbn [run mret Proc_ret].
    rewrite replace_range_all. eexists {| columns := _ |}.
    split_and!; [done|by apply set_title_lookup_eq|].
    intros k Hk. by apply set_title_lookup_ne.
Qed.

Lemma rename_rejected_by_saveRename_only_witness :
  saveRename column_a ([32; 9; 32]%N) = (None, lit "A") ∧
  ∃ data',
    run (onDidReceiveMessage ascii_toLowerCase
           (RenameColumn (lit "b") (lit "Later"))) None 0%N
        {| document := serialize_board scenario_board; log := [] |}
      = ({| document := serialize_board data';
            log := [Saved; Edited (serialize_board data')] |}, Some tt) ∧
    columns data' !! 1%nat = Some (Column.mk (lit "b") (lit "Later") []) ∧
    ∀ k, k ≠ 1%nat → columns data' !! k = columns scenario_board !! k.
Proof.
  split.
  - exact (proj1 rename_rejected_by_saveRename_only column_a ([32; 9; 32]%N)
             ltac:(vm_compute; reflexivity)).
  - exact (proj2 rename_rejected_by_saveRename_only ascii_toLowerCase None 0%N
             {| document := serialize_board scenario_board; log := [] |}
             scenario_board (lit "b") (lit "Later") 1%nat column_b
             ltac:(vm_compute; reflexivity) ltac:(vm_compute; reflexivity)).
Defined.

(** ** [add-column] and [add-card] *)

Lemma load_parsed t data :
  load t = Some data →
  ∃ parsed, JSON_parse t = Some parsed ∧ board_of_json parsed = Some data.
Proof.
  unfold load. destruct (JSON_parse t) as [parsed|]; [|done]. eauto.
Qed.

Lemma run_sendData answer now h parsed :
  JSON_parse (document h) = Some parsed →
  run sendData answer now h
  = ({| document := document h; log := Posted parsed :: log h |}, Some tt).
Proof.
  intros Hparse. unfold sendData.
  change (run (getText ≫= ?f) answer now h)
    with (run (f (document h)) answer now h).
  cbv beta. by rewrite Hparse.
Qed.

(** C7, as stated, fails for cards: the card added to column [a] with the
    title [Buy milk] at time 5 gets the id [card-5], which is not the slug
    of its title with the time, and the title [Pay rent] gets the same id. *)
Lemma card_id_ignores_title :
  let h := {| document := serialize_board scenario_board; log := [] |} in
  let added title :=
    load (document
            (run (onDidReceiveMessage ascii_toLowerCase (AddCard (lit "a")))
                 (Some title) 5%N h).1) in
  added (lit "Buy milk")
    = Some {| columns :=
                [Column.mk (lit "a") (lit "A")
                   [card_c1; card_c2; Card.mk (lit "card-5") (lit "Buy milk")];
                 column_b] |} ∧
  added (lit "Pay rent")
    = Some {| columns :=
                [Column.mk (lit "a") (lit "A")
                   [card_c1; card_c2; Card.mk (lit "card-5") (lit "Pay rent")];
                 column_b] |} ∧
  slug ascii_toLowerCase (lit "Buy milk") ++ lit "-" ++ Number_toString 5
    = lit "buy-milk-5" ∧
  lit "card-5"
    ≠ slug ascii_toLowerCase (lit "Buy milk") ++ lit "-" ++ Number_toString 5.
Proof. split_and!; [vm_compute; reflexivity..|discriminate]. Qed.

(** C7, amended.  A column created by [add-column] gets the slug of its
    title (the lower-cased title with every code unit outside [a-z0-9]
    replaced by a hyphen), a hyphen and the time of creation as its id.  A
    card created by [add-card] gets [card-] and the time of creation: its id
    does not depend on its title.  Both are appended, and the board is
    written. *)
Theorem generated_identifiers lower now h data title :
  load (document h) = Some data →
  title ≠ [] →
  (∃ h',
     run (onDidReceiveMessage lower AddColumn) (Some title) now h
       = (h', Some tt) ∧
     document h'
       = serialize_board
           {| columns :=
                columns data
                  ++ [Column.mk (slug lower title ++ lit "-"
                                   ++ Number_toString now) title []] |}) ∧
  (∀ columnId i col,
     find_column columnId (columns data) = Some (i, col) →
     ∃ h',
       run (onDidReceiveMessage lower (AddCard columnId)) (Some title) now h
         = (h', Some tt) ∧
       document h'
         = serialize_board
             {| columns :=
                  set_cards i
                    (Column.cards col
                       ++ [Card.mk (lit "card-" ++ Number_toString now) title])
                    (columns data) |}).
Proof.
  intros Hload Htitle.
  destruct (load_parsed _ _ Hload) as (parsed & Hparse & _).
  destruct title as [|c title]; [done|].
  split.
  - rewrite (run_onDidReceiveMessage _ _ _ _ _ _ Hload).
    unfold branch.
    change (run (showInputBox ?p ≫= ?f) ?a now h)
      with (run (f a) a now
                {| document := document h; log := Prompted p :: log h |}).
    cbv beta iota.
    change (run (dateNow ≫= ?f) ?a now ?h0) with (run (f now) a now h0).
    cbv beta zeta. rewrite run_bind, (run_sendData _ _ _ parsed) by done.
    cbn [run mret Proc_ret document log].
    eexists. split; [done|]. cbn [document]. apply replace_range_all.
  - intros columnId i col Hcol.
    rewrite (run_onDidReceiveMessage _ _ _ _ _ _ Hload).
    unfold branch.
    change (run (showInputBox ?p ≫= ?f) ?a now h)
      with (run (f a) a now
                {| document := document h; log := Prompted p :: log h |}).
    cbv beta iota. rewrite Hcol.
    change (run (dateNow ≫= ?f) ?a now ?h0) with (run (f now) a now h0).
    cbv beta zeta. rewrite run_bind, (run_sendData _ _ _ parsed) by done.
    cbn [run mret Proc_ret document log].
    eexists. split; [done|]. cbn [document]. apply replace_range_all.
Qed.

Lemma generated_identifiers_witness :
  let h := {| document := serialize_board scenario_board; log := [] |} in
  (∃ h',
     run (onDidReceiveMessage ascii_toLowerCase AddColumn)
         (Some (lit "To Do!")) 1700000000000%N h = (h', Some tt) ∧
     document h'
       = serialize_board
           {| columns :=
                [column_a; column_b;
                 Column.mk (lit "to-do--1700000000000") (lit "To Do!") []] |}) ∧
  (∀ columnId i col,
     find_column columnId (columns scenario_board) = Some (i, col) →
     ∃ h',
       run (onDidReceiveMessage ascii_toLowerCase (AddCard columnId))
           (Some (lit "To Do!")) 1700000000000%N h = (h', Some tt) ∧
       document h'
         = serialize_board
             {| columns :=
                  set_cards i
                    (Column.cards col
                       ++ [Card.mk (lit "card-1700000000000") (lit "To Do!")])
                    (columns scenario_board) |}).
Proof.
  exact (generated_identifiers ascii_toLowerCase 1700000000000%N
           {| document := serialize_board scenario_board; log := [] |}
           scenario_board (lit "To Do!")
           ltac:(vm_compute; reflexivity) ltac:(discriminate)).
Defined.

(** ** A prompt that is pending while another message is handled *)

(** C9 fails on the code: the listener parses the document before it awaits
    the input box and writes the board it parsed then.  [add-card] for
    column [b] is received; while its input box is open, [delete-card]
    removes [c1] from column [a] and the document is saved without [c1];
    then the box is answered, and the document written has [c1] again. *)
Theorem prompt_resumes_on_captured_state lower :
  let h := {| document := serialize_board scenario_board; log := [] |} in
  load (document
          (run (onDidReceiveMessage lower (DeleteCard (lit "a") (lit "c1")))
               None 7%N h).1)
    = Some {| columns := [Column.mk (lit "a") (lit "A") [card_c2];
                          column_b] |} ∧
  ∃ h',
    prompt_race lower (AddCard (lit "b")) (DeleteCard (lit "a") (lit "c1"))
                (Some (lit "T")) 7%N h = Some (h', Some tt) ∧
    load (document h')
      = Some {| columns :=
                  [Column.mk (lit "a") (lit "A") [card_c1; card_c2];
                   Column.mk (lit "b") (lit "B")
                     [Card.mk (lit "card-7") (lit "T")]] |}.
Proof.
  split; [vm_compute; reflexivity|].
  eexists. split; vm_compute; reflexivity.
Qed.

(** When the document has grown in between, the stale range leaves its tail
    behind the board that is written: [rename-column] lengthens the title of
    [a] while the input box of [add-card] is open, and the document that
    results no longer parses. *)
Example prompt_race_corrupts_document lower :
  let h := {| document := serialize_board scenario_board; log := [] |} in
  ∃ h',
    prompt_race lower (AddCard (lit "b"))
                (RenameColumn (lit "a") (lit "A much longer title for column a"))
                (Some (lit "T")) 7%N h = Some (h', Some tt) ∧
    JSON_parse (document h') = None.
Proof. eexists. split; vm_compute; reflexivity. Qed.

(** ** Instances of the claims on the board of the scenarios *)

Lemma moveCard_conservation_witness :
  ∃ state' tc' p,
    moveCard scenario_board (lit "a") (lit "b") (lit "c1") (Some 0)
      = Returns state' ∧
    total_cards state' = total_cards scenario_board ∧
    columns state' !! 1%nat = Some tc' ∧
    Column.cards tc' !! p = Some card_c1 ∧
    Card.id card_c1 = lit "c1".
Proof.
  exact (moveCard_conservation scenario_board (lit "a") (lit "b") (lit "c1")
           (Some 0) 0%nat column_a 1%nat column_b 0%nat card_c1
           eq_refl eq_refl eq_refl).
Defined.

Lemma moveCard_order_preserved_witness :
  ∃ state' fc' tc' p,
    moveCard scenario_board (lit "a") (lit "a") (lit "c1") None
      = Returns state' ∧
    length (columns state') = length (columns scenario_board) ∧
    (∀ k, k ≠ 0%nat → k ≠ 0%nat →
          columns state' !! k = columns scenario_board !! k) ∧
    columns state' !! 0%nat = Some fc' ∧
    columns state' !! 0%nat = Some tc' ∧
    Column.cards tc' !! p = Some card_c1 ∧
    delete p (Column.cards tc') = delete 0%nat (Column.cards column_a).
Proof.
  exact (moveCard_order_preserved scenario_board (lit "a") (lit "a")
           (lit "c1") None 0%nat column_a 0%nat column_a 0%nat card_c1
           eq_refl eq_refl eq_refl).
Defined.

Lemma move_column_to_slot_witness :
  ∃ data' h',
    run (onDidReceiveMessage ascii_toLowerCase
           (MoveColumn (lit "a") (lit "b"))) None 0%N
        {| document := serialize_board scenario_board; log := [] |}
      = (h', Some tt) ∧
    document h' = serialize_board data' ∧
    log h' = [Saved; Edited (serialize_board data')] ∧
    columns data' !! 1%nat = Some column_a ∧
    delete 1%nat (columns data') = delete 0%nat (columns scenario_board) ∧
    columns data' !! 0%nat = Some column_b.
Proof.
  exact (move_column_to_slot ascii_toLowerCase None 0%N
           {| document := serialize_board scenario_board; log := [] |}
           scenario_board (lit "a") (lit "b") 0%nat column_a 1%nat column_b
           ltac:(vm_compute; reflexivity) eq_refl eq_refl ltac:(discriminate)).
Defined.

(** The scenarios of the specification on the dispatcher: [delete-column]
    of [a] leaves [b] alone, and [move-column] of a column onto itself
    writes nothing. *)
Example delete_column_scenario :
  let h := {| document := serialize_board scenario_board; log := [] |} in
  load (document
          (run (onDidReceiveMessage ascii_toLowerCase (DeleteColumn (lit "a")))
               None 0%N h).1)
    = Some {| columns := [column_b] |}.
Proof. vm_compute. reflexivity. Qed.

Example move_column_onto_itself :
  let h := {| document := serialize_board scenario_board; log := [] |} in
  run (onDidReceiveMessage ascii_toLowerCase (MoveColumn (lit "a") (lit "a")))
      None 0%N h = (h, Some tt).
Proof. vm_compute. reflexivity. Qed.


(** ** Strings: [JSON.parse] reads back what [QuoteJSONString] writes *)

Local Open Scope N_scope.

Lemma short_escape_unescape c e :
  short_escape c = Some e →
  unescape e = Some c ∧ (e =? cu "u") = false ∧
  (reverse_solidus =? quotation_mark) = false.
Proof.
  unfold short_escape.
  repeat match goal with
         | |- context [c =? ?k] =>
           destruct (N.eqb_spec c k) as [->|?]; [intros [= <-]; by vm_compute|]
         end.
  done.
Qed.

Lemma short_escape_None c :
  short_escape c = None →
  (c =? quotation_mark) = false ∧ (c =? reverse_solidus) = false.
Proof.
  unfold short_escape, quotation_mark, reverse_solidus.
  repeat match goal with
         | |- context [if c =? ?k then _ else _] =>
           destruct (N.eqb_spec c k) as [->|?]; [done|]
         end.
  done.
Qed.

Lemma hex_digit_value d : d < 16 → hex_value (hex_digit d) = Some d.
Proof.
  intros Hd.
  assert (d = 0 ∨ d = 1 ∨ d = 2 ∨ d = 3 ∨ d = 4 ∨ d = 5 ∨ d = 6 ∨ d = 7 ∨
          d = 8 ∨ d = 9 ∨ d = 10 ∨ d = 11 ∨ d = 12 ∨ d = 13 ∨ d = 14 ∨
          d = 15) as H by lia.
  repeat (destruct H as [->|H]; [reflexivity|]). by subst.
Qed.

Lemma hex_digits_value c :
  c < 65536 →
  (c / 4096 mod 16) * 4096 + (c / 256 mod 16) * 256 + (c / 16 mod 16) * 16
    + c mod 16 = c.
Proof. intros Hc. zify. Z.to_euclidean_division_equations. lia. Qed.

Lemma parse_chars_UnicodeEscape c rest :
  c < 65536 →
  parse_chars (UnicodeEscape c ++ rest) = prepend c (parse_chars rest).
Proof.
  intros Hc. unfold UnicodeEscape. cbn [app parse_chars].
  change (reverse_solidus =? quotation_mark) with false.
  change (reverse_solidus =? reverse_solidus) with true.
  change (cu "u" =? cu "u") with true. cbv iota.
  rewrite !hex_digit_value by (apply N.mod_upper_bound; done).
  by rewrite hex_digits_value.
Qed.

Lemma parse_chars_literal c rest :
  (c =? quotation_mark) = false → (c =? reverse_solidus) = false →
  (c <? 32) = false →
  parse_chars (c :: rest) = prepend c (parse_chars rest).
Proof. intros H1 H2 H3. cbn [parse_chars]. by rewrite H1, H2, H3. Qed.

Lemma surrogate_bound c :
  is_leading_surrogate c || is_trailing_surrogate c = true → c < 65536.
Proof.
  unfold is_leading_surrogate, is_trailing_surrogate.
  rewrite orb_true_iff, !andb_true_iff, !N.leb_le. lia.
Qed.

Lemma surrogate_literal c :
  is_leading_surrogate c || is_trailing_surrogate c = true →
  (c =? quotation_mark) = false ∧ (c =? reverse_solidus) = false ∧
  (c <? 32) = false.
Proof.
  unfold is_leading_surrogate, is_trailing_surrogate, quotation_mark,
    reverse_solidus.
  rewrite orb_true_iff, !andb_true_iff, !N.leb_le, !N.eqb_neq, N.ltb_ge. lia.
Qed.

Lemma parse_quote_units_bounded n :
  ∀ s rest, (length s ≤ n)%nat →
    parse_chars (quote_units s ++ quotation_mark :: rest) = Some (s, rest).
Proof.
  induction n as [|n IH]; intros [|c s] rest Hlen; simpl in Hlen;
    try lia; try (cbn [quote_units app parse_chars];
                  by change (quotation_mark =? quotation_mark) with true).
  assert (Hs : (length s ≤ n)%nat) by lia.
  cbn [quote_units].
  destruct (short_escape c) as [e|] eqn:Hshort.
  { destruct (short_escape_unescape _ _ Hshort) as (Hun & Hu & Hq).
    cbn [app parse_chars]. rewrite Hq.
    change (reverse_solidus =? reverse_solidus) with true. cbv iota.
    by rewrite Hu, Hun, IH. }
  destruct (short_escape_None _ Hshort) as [Hq Hr].
  destruct (c <? 32) eqn:Hlow.
  { apply N.ltb_lt in Hlow.
    rewrite <- app_assoc, parse_chars_UnicodeEscape by lia. by rewrite IH. }
  destruct (is_leading_surrogate c) eqn:Hlead.
  { pose proof (surrogate_bound c) as Hb. rewrite Hlead in Hb.
    specialize (Hb eq_refl).
    destruct s as [|d s]; cbv iota.
    - rewrite parse_chars_UnicodeEscape by done.
      cbn [parse_chars].
      by change (quotation_mark =? quotation_mark) with true.
    - destruct (is_trailing_surrogate d) eqn:Htrail.
      + pose proof (surrogate_literal d) as Hd.
        rewrite Htrail, orb_true_r in Hd.
        destruct (Hd eq_refl) as (Hd1 & Hd2 & Hd3).
        cbn [app]. rewrite parse_chars_literal by done.
        rewrite parse_chars_literal by done.
        simpl in Hs. rewrite IH by lia. done.
      + rewrite <- app_assoc, parse_chars_UnicodeEscape by done.
        by rewrite IH. }
  destruct (is_trailing_surrogate c) eqn:Htrail.
  { pose proof (surrogate_bound c) as Hb. rewrite Htrail, orb_true_r in Hb.
    rewrite <- app_assoc, parse_chars_UnicodeEscape by auto. by rewrite IH. }
  cbn [app]. rewrite parse_chars_literal by done. by rewrite IH.
Qed.

(** Behind the opening quotation mark of [QuoteJSONString s], the parser
    reads [s] and stops behind the closing one. *)
Lemma parse_chars_quote s rest :
  parse_chars (quote_units s ++ quotation_mark :: rest) = Some (s, rest).
Proof. by apply (parse_quote_units_bounded (length s)). Qed.

Local Close Scope N_scope.

(** ** Values: [JSON.parse] reads back what [JSON.stringify] writes *)

Lemma json_nested_ind (P : json → Prop) :
  P JNull → (∀ b, P (JBool b)) → (∀ lexeme, P (JNumber lexeme)) →
  (∀ s, P (JString s)) →
  (∀ elements, Forall P elements → P (JArray elements)) →
  (∀ members, Forall (λ m, P m.2) members → P (JObject members)) →
  ∀ v, P v.
Proof.
  intros Hnull Hbool Hnum Hstr Harr Hobj.
  fix IH 1. intros [| b | lexeme | s | elements | members].
  - apply Hnull.
  - apply Hbool.
  - apply Hnum.
  - apply Hstr.
  - apply Harr. revert elements. fix IHl 1. intros [|e elements].
    + constructor.
    + constructor; [apply IH | apply IHl].
  - apply Hobj. revert members. fix IHl 1. intros [|[k e] members].
    + constructor.
    + constructor; [apply IH | apply IHl].
Qed.

Local Open Scope N_scope.

Lemma skip_ws_app ws s :
  forallb is_ws ws = true → skip_ws (ws ++ s) = skip_ws s.
Proof.
  induction ws as [|c ws IH]; simpl; [done|].
  intros [Hc Hws]%andb_prop. rewrite Hc. auto.
Qed.

Lemma parse_value_skip fuel ws s :
  forallb is_ws ws = true → parse_value fuel (ws ++ s) = parse_value fuel s.
Proof. intros H. destruct fuel; [done|]. simpl. by rewrite skip_ws_app. Qed.

Lemma parse_elements_skip fuel ws s :
  forallb is_ws ws = true →
  parse_elements fuel (ws ++ s) = parse_elements fuel s.
Proof.
  intros H. destruct fuel; [done|]. cbn [parse_elements].
  by rewrite parse_value_skip.
Qed.

Lemma parse_members_skip fuel ws s :
  forallb is_ws ws = true →
  parse_members fuel (ws ++ s) = parse_members fuel s.
Proof. intros H. destruct fuel; [done|]. simpl. by rewrite skip_ws_app. Qed.

Lemma forallb_is_ws_indent indent :
  forallb is_ws indent = true → forallb is_ws (indent ++ gap) = true.
Proof. intros H. by rewrite forallb_app, H. Qed.

(** The steps of the parser on the first character of a value. *)

Lemma parse_value_string fuel r :
  parse_value (S fuel) (quotation_mark :: r)
  = '(str, r') ← parse_chars r; Some (JString str, r').
Proof. reflexivity. Qed.

Lemma parse_value_array fuel r d r' :
  skip_ws r = d :: r' → (d =? cu "]") = false →
  parse_value (S fuel) (cu "[" :: r)
  = '(els, r'') ← parse_elements fuel r; Some (JArray els, r'').
Proof.
  intros Hr Hd. cbn [parse_value skip_ws].
  change (is_ws (cu "[")) with false. cbv iota.
  change (cu "[" =? quotation_mark) with false.
  change (cu "[" =? cu "[") with true. cbv iota.
  by rewrite Hr, Hd.
Qed.

Lemma parse_value_object fuel r d r' :
  skip_ws r = d :: r' → (d =? cu "}") = false →
  parse_value (S fuel) (cu "{" :: r)
  = '(ms, r'') ← parse_members fuel r; Some (JObject ms, r'').
Proof.
  intros Hr Hd. cbn [parse_value skip_ws].
  change (is_ws (cu "{")) with false. cbv iota.
  change (cu "{" =? quotation_mark) with false.
  change (cu "{" =? cu "[") with false.
  change (cu "{" =? cu "{") with true. cbv iota.
  by rewrite Hr, Hd.
Qed.

Lemma parse_elements_step fuel s v r d r' :
  parse_value fuel s = Some (v, r) → skip_ws r = d :: r' →
  parse_elements (S fuel) s
  = if d =? cu "," then prepend v (parse_elements fuel r')
    else if d =? cu "]" then Some ([v], r') else None.
Proof. intros Hv Hr. cbn [parse_elements]. rewrite Hv. simpl. by rewrite Hr. Qed.

Lemma parse_members_step fuel key r1 v r d r' :
  parse_value fuel r1 = Some (v, r) → skip_ws r = d :: r' →
  parse_members (S fuel)
    (QuoteJSONString key ++ cu ":" :: r1)
  = if d =? cu "," then prepend (key, v) (parse_members fuel r')
    else if d =? cu "}" then Some ([(key, v)], r') else None.
Proof.
  intros Hv Hr. unfold QuoteJSONString.
  cbn [parse_members skip_ws app].
  change (is_ws quotation_mark) with false. cbv iota.
  change (quotation_mark =? quotation_mark) with true. cbv iota.
  rewrite <- app_assoc. cbn [app]. rewrite parse_chars_quote.
  cbn [mbind option_bind skip_ws].
  change (is_ws (cu ":")) with false. cbv iota.
  change (cu ":" =? cu ":") with true. cbv iota.
  rewrite Hv. simpl. by rewrite Hr.
Qed.

Local Close Scope N_scope.

Local Open Scope N_scope.

Lemma serialize_head indent v :
  number_free v = true →
  ∃ c t, serialize indent v = c :: t ∧ is_ws c = false ∧
         (c =? cu "]") = false.
Proof.
  destruct v as [| [|] | lexeme | s | [|e es] | [|m ms]]; intros Hv;
    try discriminate; eexists _, _; (split; [reflexivity|by vm_compute]).
Qed.

Lemma join_cons sep p q ps :
  join sep (p :: q :: ps) = p ++ sep ++ join sep (q :: ps).
Proof. reflexivity. Qed.

Lemma length_join_cons sep p q ps :
  length (join sep (p :: q :: ps))
  = (length p + length sep + length (join sep (q :: ps)))%nat.
Proof. by rewrite join_cons, !length_app, Nat.add_assoc. Qed.

(** The elements of a non-empty array, from the first one to the closing
    bracket. *)
Lemma parse_elements_join indent es :
  Forall (λ e, number_free e = true → reads_back e) es →
  forallb number_free es = true →
  forallb is_ws indent = true →
  es ≠ [] →
  ∀ tail rest fuel,
    skip_ws tail = cu "]" :: rest →
    (length (join (lit "," ++ [LF] ++ indent) (map (serialize indent) es))
     < fuel)%nat →
    parse_elements fuel
      (join (lit "," ++ [LF] ++ indent) (map (serialize indent) es) ++ tail)
    = Some (es, rest).
Proof.
  intros Hall Hfree Hindent.
  induction Hall as [|e es He Hall IH]; [done|]. intros _ tail rest fuel Htail.
  change (forallb number_free (e :: es))
    with (number_free e && forallb number_free es) in Hfree.
  apply andb_prop in Hfree as [Hfe Hfes]. specialize (He Hfe).
  destruct es as [|e2 es].
  - change (join _ (map (serialize indent) [e])) with (serialize indent e).
    intros Hlen. destruct fuel as [|fuel]; [lia|].
    rewrite (parse_elements_step fuel _ e tail (cu "]") rest);
      [done|apply He; [done|lia]|done].
  - change (map (serialize indent) (e :: e2 :: es))
      with (serialize indent e
              :: serialize indent e2 :: map (serialize indent) es).
    rewrite length_join_cons, join_cons.
    change (serialize indent e2 :: map (serialize indent) es)
      with (map (serialize indent) (e2 :: es)).
    intros Hlen. destruct fuel as [|fuel]; [lia|].
    rewrite <- !app_assoc.
    change (lit "," ++ [LF] ++ indent ++ ?x)
      with (cu "," :: ([LF] ++ indent) ++ x).
    erewrite parse_elements_step; [|apply He; [done|lia]|reflexivity].
    change (cu "," =? cu ",") with true. cbv iota.
    rewrite parse_elements_skip by (simpl; done).
    rewrite (IH Hfes ltac:(done) tail rest fuel Htail); [done|].
    change (lit "," ++ [LF] ++ indent) with (cu "," :: LF :: indent)
      in Hlen |- *.
    cbn [length] in Hlen. lia.
Qed.

Local Close Scope N_scope.

Local Open Scope N_scope.

(** The members of a non-empty object, from the first key to the closing
    brace. *)
Lemma parse_members_join indent ms :
  let member (m : jsstring * json) :=
    QuoteJSONString m.1 ++ lit ": " ++ serialize indent m.2 in
  Forall (λ m, number_free m.2 = true → reads_back m.2) ms →
  forallb (λ m, number_free m.2) ms = true →
  forallb is_ws indent = true →
  ms ≠ [] →
  ∀ tail rest fuel,
    skip_ws tail = cu "}" :: rest →
    (length (join (lit "," ++ [LF] ++ indent) (map member ms)) < fuel)%nat →
    parse_members fuel
      (join (lit "," ++ [LF] ++ indent) (map member ms) ++ tail)
    = Some (ms, rest).
Proof.
  intros member Hall Hfree Hindent.
  induction Hall as [|[k v] ms Hv Hall IH]; [done|].
  intros _ tail rest fuel Htail.
  change (forallb _ ((k, v) :: ms))
    with (number_free v && forallb (λ m, number_free m.2) ms) in Hfree.
  apply andb_prop in Hfree as [Hfv Hfms]. specialize (Hv Hfv).
  assert (Hvalue : ∀ fuel' rest',
            (length (serialize indent v) ≤ fuel')%nat →
            parse_value fuel' (32 :: serialize indent v ++ rest')
            = Some (v, rest')).
  { intros fuel' rest' Hlen.
    exact (eq_trans (parse_value_skip fuel' [32] _ eq_refl)
                    (Hv _ _ _ Hindent Hlen)). }
  assert (Hmember : ∀ x,
            member (k, v) ++ x
            = QuoteJSONString k ++ cu ":" :: 32 :: serialize indent v ++ x).
  { intros x. unfold member. cbn [fst snd]. by rewrite <- !app_assoc. }
  assert (Hmlen : (length (serialize indent v) + 2 < length (member (k, v)))%nat).
  { unfold member, QuoteJSONString. cbn [fst snd].
    change (lit ": ") with [cu ":"; 32].
    cbn [length app]. rewrite !length_app. cbn [length]. lia. }
  destruct ms as [|m2 ms].
  - change (join _ (map member [(k, v)])) with (member (k, v)).
    intros Hlen. destruct fuel as [|fuel]; [lia|].
    rewrite Hmember.
    erewrite parse_members_step; [|apply Hvalue; lia|exact Htail].
    done.
  - change (map member ((k, v) :: m2 :: ms))
      with (member (k, v) :: member m2 :: map member ms).
    rewrite length_join_cons, join_cons.
    change (member m2 :: map member ms) with (map member (m2 :: ms)).
    intros Hlen. destruct fuel as [|fuel]; [lia|].
    rewrite <- !app_assoc, Hmember.
    change (lit "," ++ [LF] ++ indent ++ ?x)
      with (cu "," :: ([LF] ++ indent) ++ x).
    erewrite parse_members_step; [|apply Hvalue; lia|reflexivity].
    change (cu "," =? cu ",") with true. cbv iota.
    rewrite parse_members_skip by (simpl; done).
    rewrite (IH Hfms ltac:(done) tail rest fuel Htail); [done|].
    change (lit "," ++ [LF] ++ indent) with (cu "," :: LF :: indent)
      in Hlen |- *.
    cbn [length] in Hlen. lia.
Qed.

Lemma skip_ws_stepback indent c rest :
  forallb is_ws indent = true → is_ws c = false →
  skip_ws ([LF] ++ indent ++ c :: rest) = c :: rest.
Proof.
  intros Hindent Hc.
  rewrite (skip_ws_app [LF]) by done. rewrite skip_ws_app by done.
  simpl. by rewrite Hc.
Qed.

Lemma join_head sep c t ps : ∃ t', join sep ((c :: t) :: ps) = c :: t'.
Proof. destruct ps; [by eexists|]. rewrite join_cons. by eexists. Qed.

(** [JSON.parse] reads a value without numbers back from what
    [JSON.stringify] writes for it, at every indentation. *)
Lemma parse_serialize v : number_free v = true → reads_back v.
Proof.
  induction v as [| b | lexeme | s | es IH | ms IH] using json_nested_ind;
    intros Hfree indent rest fuel Hindent Hlen; try discriminate.
  - destruct fuel; [simpl in Hlen; lia|]. reflexivity.
  - destruct fuel; [destruct b; simpl in Hlen; lia|]. by destruct b.
  - destruct fuel; [simpl in Hlen; lia|].
    unfold serialize, QuoteJSONString. cbn [app].
    rewrite parse_value_string, <- app_assoc. cbn [app].
    by rewrite parse_chars_quote.
  - destruct es as [|e es].
    { destruct fuel; [simpl in Hlen; lia|]. reflexivity. }
    pose proof (forallb_is_ws_indent _ Hindent) as Hind.
    change (number_free (JArray (e :: es)))
      with (forallb number_free (e :: es)) in Hfree.
    pose proof Hfree as [Hfe _]%andb_prop.
    destruct (serialize_head (indent ++ gap) e Hfe) as (c & t & Hc & Hws & Hcb).
    pose proof (parse_elements_join (indent ++ gap) (e :: es) IH Hfree Hind
                  ltac:(done)) as Hels.
    change (serialize indent (JArray (e :: es)))
      with (cu "[" :: ([LF] ++ indent ++ gap)
              ++ join (lit "," ++ [LF] ++ (indent ++ gap))
                   (map (serialize (indent ++ gap)) (e :: es))
              ++ [LF] ++ indent ++ [cu "]"]) in Hlen |- *.
    set (J := join _ _) in *. set (ind := indent ++ gap) in *.
    assert (HJ : ∃ t', J = c :: t').
    { unfold J. cbn [map]. rewrite Hc. apply join_head. }
    destruct HJ as [t' HJ].
    replace ((cu "[" :: ([LF] ++ ind) ++ J ++ [LF] ++ indent ++ [cu "]"])
             ++ rest)
      with (cu "[" :: ([LF] ++ ind) ++ J ++ [LF] ++ indent ++ cu "]" :: rest)
      by (repeat (progress (cbn [app]; rewrite <- ?app_assoc)); done).
    destruct fuel as [|fuel]; [simpl in Hlen; lia|].
    erewrite parse_value_array; [| |exact Hcb].
    2:{ rewrite skip_ws_app by done. rewrite HJ. cbn [app skip_ws].
        by rewrite Hws. }
    rewrite parse_elements_skip by done.
    erewrite Hels; [reflexivity| |].
    + by apply skip_ws_stepback.
    + rewrite ?length_cons, !length_app in Hlen. cbn [length] in Hlen. lia.
  - destruct ms as [|m ms].
    { destruct fuel; [simpl in Hlen; lia|]. reflexivity. }
    pose proof (forallb_is_ws_indent _ Hindent) as Hind.
    change (number_free (JObject (m :: ms)))
      with (forallb (λ m, number_free m.2) (m :: ms)) in Hfree.
    pose proof (parse_members_join (indent ++ gap) (m :: ms) IH Hfree Hind
                  ltac:(done)) as Hms.
    cbv zeta in Hms.
    change (serialize indent (JObject (m :: ms)))
      with (cu "{" :: ([LF] ++ indent ++ gap)
              ++ join (lit "," ++ [LF] ++ (indent ++ gap))
                   (map (λ m : jsstring * json,
                           QuoteJSONString m.1 ++ lit ": "
                             ++ serialize (indent ++ gap) m.2) (m :: ms))
              ++ [LF] ++ indent ++ [cu "}"]) in Hlen |- *.
    set (J := join _ _) in *. set (ind := indent ++ gap) in *.
    assert (HJ : ∃ t', J = quotation_mark :: t').
    { unfold J. cbn [map]. unfold QuoteJSONString at 1. cbn [app].
      apply join_head. }
    destruct HJ as [t' HJ].
    replace ((cu "{" :: ([LF] ++ ind) ++ J ++ [LF] ++ indent ++ [cu "}"])
             ++ rest)
      with (cu "{" :: ([LF] ++ ind) ++ J ++ [LF] ++ indent ++ cu "}" :: rest)
      by (repeat (progress (cbn [app]; rewrite <- ?app_assoc)); done).
    destruct fuel as [|fuel]; [simpl in Hlen; lia|].
    erewrite (parse_value_object fuel _ quotation_mark); [| |done].
    2:{ rewrite skip_ws_app by done. rewrite HJ. reflexivity. }
    rewrite parse_members_skip by done.
    erewrite Hms; [reflexivity| |].
    + by apply skip_ws_stepback.
    + rewrite ?length_cons, !length_app in Hlen. cbn [length] in Hlen. lia.
Qed.

Local Close Scope N_scope.

(** [JSON.parse] gives back the value that [JSON.stringify(value, null, 2)]
    was given. *)
Lemma JSON_parse_stringify v :
  number_free v = true → JSON_parse (JSON_stringify v) = Some v.
Proof.
  intros Hfree. unfold JSON_parse, JSON_stringify.
  pose proof (parse_serialize v Hfree [] []
                (2 * length (serialize [] v) + 2)%nat eq_refl ltac:(lia))
    as Hparse.
  rewrite app_nil_r in Hparse. by rewrite Hparse.
Qed.

(** ** Boards: the document read back *)

Lemma card_of_json_of_card c : card_of_json (json_of_card c) = Some c.
Proof. by destruct c. Qed.

Lemma column_of_json_of_column c :
  column_of_json (json_of_column c) = Some c.
Proof.
  destruct c as [i t cs]. unfold json_of_column, column_of_json.
  cbn [Column.id Column.title Column.cards].
  rewrite decide_True by done.
  by rewrite (mapM_fmap_Some _ _ _ card_of_json_of_card).
Qed.

Lemma board_of_json_of_board b : board_of_json (json_of_board b) = Some b.
Proof.
  destruct b as [cols]. unfold json_of_board, board_of_json. cbn [columns].
  rewrite decide_True by done.
  by rewrite (mapM_fmap_Some _ _ _ column_of_json_of_column).
Qed.

Lemma forallb_fmap_true {A B} (p : B → bool) (f : A → B) l :
  (∀ x, p (f x) = true) → forallb p (f <$> l) = true.
Proof.
  intros H. induction l as [|x l IH]; [done|].
  cbn [fmap list_fmap forallb]. by rewrite H.
Qed.

Lemma number_free_card c : number_free (json_of_card c) = true.
Proof. reflexivity. Qed.

Lemma number_free_column c : number_free (json_of_column c) = true.
Proof.
  unfold json_of_column. cbn [number_free forallb snd].
  by rewrite (forallb_fmap_true _ _ _ number_free_card).
Qed.

Lemma number_free_board b : number_free (json_of_board b) = true.
Proof.
  unfold json_of_board. cbn [number_free forallb snd].
  by rewrite (forallb_fmap_true _ _ _ number_free_column).
Qed.

(** C3.  The text that the editor writes for a board,
    [JSON.stringify(data, null, 2)], parses, and the board read from it is
    the board that was written: the same columns and cards in the same
    order, with the same ids and titles. *)
Theorem load_serialize_board b :
  JSON_parse (serialize_board b) = Some (json_of_board b) ∧
  load (serialize_board b) = Some b.
Proof.
  assert (H : JSON_parse (serialize_board b) = Some (json_of_board b))
    by apply JSON_parse_stringify, number_free_board.
  split; [done|]. unfold load. rewrite H. apply board_of_json_of_board.
Qed.

(** ** The parser does not run out of fuel

    Every call consumes a character before it calls itself on the rest, so
    the fuel that [JSON_parse] gives is enough for every text: more fuel
    does not change its result, and [None] is a [SyntaxError]. *)

Local Open Scope N_scope.

Lemma skip_ws_length s : (length (skip_ws s) ≤ length s)%nat.
Proof.
  induction s as [|c s IH]; simpl; [done|]. destruct (is_ws c); simpl; lia.
Qed.

Lemma skip_ws_cons_length s c r :
  skip_ws s = c :: r → (length r < length s)%nat.
Proof.
  intros H. pose proof (skip_ws_length s) as Hs. rewrite H in Hs.
  simpl in Hs. lia.
Qed.

Lemma prepend_length {A} (x : A) (p : option (list A * text)) l r n :
  (∀ l' r', p = Some (l', r') → (length r' < n)%nat) →
  prepend x p = Some (l, r) → (length r < n)%nat.
Proof. destruct p as [[l' r']|]; [|done]. intros H [= <- <-]. eauto. Qed.

Lemma parse_chars_length_bounded n :
  ∀ s str r, (length s ≤ n)%nat →
    parse_chars s = Some (str, r) → (length r < length s)%nat.
Proof.
  induction n as [|n IH]; intros [|c s] str r Hn; simpl in Hn; try done;
    try lia.
  cbn [parse_chars]. destruct (c =? quotation_mark).
  { intros [= <- <-]. simpl. lia. }
  destruct (c =? reverse_solidus).
  - destruct s as [|e s]; [done|]. destruct (e =? cu "u").
    + destruct s as [|h1 [|h2 [|h3 [|h4 s]]]]; try done.
      destruct (hex_value h1), (hex_value h2), (hex_value h3), (hex_value h4);
        try done.
      intros H. eapply prepend_length in H; [simpl; exact H|].
      intros l' r' Hp. apply IH in Hp; simpl in *; lia.
    + destruct (unescape e); [|done].
      intros H. eapply prepend_length in H; [simpl; exact H|].
      intros l' r' Hp. apply IH in Hp; simpl in *; lia.
  - destruct (c <? 32); [done|].
    intros H. eapply prepend_length in H; [simpl; exact H|].
    intros l' r' Hp. apply IH in Hp; simpl in *; lia.
Qed.

Lemma parse_chars_length s str r :
  parse_chars s = Some (str, r) → (length r < length s)%nat.
Proof. by apply (parse_chars_length_bounded (length s)). Qed.

Lemma span_digits_length s ds r :
  span_digits s = (ds, r) → (length r ≤ length s)%nat.
Proof.
  revert ds r. induction s as [|c s IH]; intros ds r; simpl.
  - by intros [= <- <-].
  - destruct (is_digit c).
    + destruct (span_digits s) as [ds' r'] eqn:Hs. intros [= <- <-].
      specialize (IH _ _ eq_refl). lia.
    + intros [= <- <-]. simpl. lia.
Qed.

Lemma lex_int_length s l r :
  lex_int s = Some (l, r) → (length r < length s)%nat.
Proof.
  destruct s as [|c s]; [done|]. unfold lex_int.
  destruct (c =? 48); [intros [= <- <-]; simpl; lia|].
  destruct (is_digit c); [|done].
  destruct (span_digits s) as [ds r'] eqn:Hs. intros [= <- <-].
  apply span_digits_length in Hs. simpl. lia.
Qed.

Lemma lex_frac_length s l r :
  lex_frac s = Some (l, r) → (length r ≤ length s)%nat.
Proof.
  destruct s as [|c s]; [by intros [= <- <-]|]. unfold lex_frac.
  destruct (c =? cu "."); [|by intros [= <- <-]].
  destruct (span_digits s) as [[|d ds] r'] eqn:Hs; [done|]. intros [= <- <-].
  apply span_digits_length in Hs. simpl. lia.
Qed.

Lemma lex_exp_length s l r :
  lex_exp s = Some (l, r) → (length r ≤ length s)%nat.
Proof.
  destruct s as [|c s]; [by intros [= <- <-]|]. unfold lex_exp.
  destruct ((c =? cu "e") || (c =? cu "E")); [|by intros [= <- <-]].
  assert (∀ sign r1, (length r1 ≤ length s)%nat →
            match span_digits r1 with
            | ([], _) => None
            | (ds, r') => Some (c :: sign ++ ds, r')
            end = Some (l, r) → (length r ≤ length (c :: s))%nat) as Hdigits.
  { intros sign r1 Hr1.
    destruct (span_digits r1) as [[|d ds] r'] eqn:Hs; [done|].
    intros [= <- <-]. apply span_digits_length in Hs. simpl. lia. }
  destruct s as [|g s]; [apply (Hdigits [] []); simpl; lia|].
  destruct ((g =? cu "+") || (g =? cu "-")).
  - apply (Hdigits [g] s). simpl. lia.
  - apply (Hdigits [] (g :: s)). done.
Qed.

Lemma lex_number_length s l r :
  lex_number s = Some (l, r) → (length r < length s)%nat.
Proof.
  unfold lex_number.
  set (split := match s with
                | c :: r => if c =? cu "-" then ([c], r) else ([], s)
                | [] => ([], [])
                end).
  assert (Hsplit : (length split.2 ≤ length s)%nat).
  { unfold split. destruct s as [|c s']; [done|].
    destruct (c =? cu "-"); simpl; lia. }
  destruct split as [minus s1]. simpl in Hsplit.
  destruct (lex_int s1) as [[int s2]|] eqn:Hint; simpl; [|done].
  destruct (lex_frac s2) as [[frac s3]|] eqn:Hfrac; simpl; [|done].
  destruct (lex_exp s3) as [[exp s4]|] eqn:Hexp; simpl; [|done].
  intros [= <- <-].
  apply lex_int_length in Hint. apply lex_frac_length in Hfrac.
  apply lex_exp_length in Hexp. lia.
Qed.

Lemma strip_prefix_length p s r :
  strip_prefix p s = Some r → (length r ≤ length s)%nat.
Proof.
  revert s. induction p as [|a p IH]; intros [|b s]; simpl; try done.
  - by intros [= <-].
  - by intros [= <-].
  - destruct (a =? b); [|done]. intros H%IH. lia.
Qed.

Local Close Scope N_scope.

Local Open Scope N_scope.

(** A successful call has consumed at least one character. *)
Lemma parse_consumes fuel :
  (∀ s v r, parse_value fuel s = Some (v, r) → (length r < length s)%nat) ∧
  (∀ s vs r, parse_elements fuel s = Some (vs, r) →
             (length r < length s)%nat) ∧
  (∀ s ms r, parse_members fuel s = Some (ms, r) →
             (length r < length s)%nat).
Proof.
  induction fuel as [|fuel (IHv & IHe & IHm)]; [done|].
  assert (Hvalue : ∀ s v r, parse_value (S fuel) s = Some (v, r) →
                            (length r < length s)%nat).
  { intros s v r. cbn [parse_value].
    destruct (skip_ws s) as [|c r0] eqn:Hs; [done|].
    apply skip_ws_cons_length in Hs.
    destruct (c =? quotation_mark).
    { destruct (parse_chars r0) as [[str r']|] eqn:Hc; cbn [mbind option_bind]; [|done].
      intros [= <- <-]. apply parse_chars_length in Hc. lia. }
    destruct (c =? cu "[").
    { destruct (skip_ws r0) as [|d r1] eqn:Hr0; [done|].
      apply skip_ws_cons_length in Hr0.
      destruct (d =? cu "]"); [intros [= <- <-]; lia|].
      destruct (parse_elements fuel r0) as [[els r'']|] eqn:He; cbn [mbind option_bind]; [|done].
      intros [= <- <-]. apply IHe in He. lia. }
    destruct (c =? cu "{").
    { destruct (skip_ws r0) as [|d r1] eqn:Hr0; [done|].
      apply skip_ws_cons_length in Hr0.
      destruct (d =? cu "}"); [intros [= <- <-]; lia|].
      destruct (parse_members fuel r0) as [[ms r'']|] eqn:He; cbn [mbind option_bind]; [|done].
      intros [= <- <-]. apply IHm in He. lia. }
    destruct (c =? cu "t").
    { destruct (strip_prefix _ r0) as [r'|] eqn:Hp; cbn [mbind option_bind]; [|done].
      intros [= <- <-]. apply strip_prefix_length in Hp. lia. }
    destruct (c =? cu "f").
    { destruct (strip_prefix _ r0) as [r'|] eqn:Hp; cbn [mbind option_bind]; [|done].
      intros [= <- <-]. apply strip_prefix_length in Hp. lia. }
    destruct (c =? cu "n").
    { destruct (strip_prefix _ r0) as [r'|] eqn:Hp; cbn [mbind option_bind]; [|done].
      intros [= <- <-]. apply strip_prefix_length in Hp. lia. }
    destruct (lex_number (c :: r0)) as [[lexeme r']|] eqn:Hn; cbn [mbind option_bind]; [|done].
    intros [= <- <-]. apply lex_number_length in Hn. simpl in Hn. lia. }
  split; [exact Hvalue|]. split.
  - intros s vs r. cbn [parse_elements].
    destruct (parse_value fuel s) as [[v r0]|] eqn:Hv; cbn [mbind option_bind]; [|done].
    apply IHv in Hv.
    destruct (skip_ws r0) as [|d r1] eqn:Hr0; [done|].
    apply skip_ws_cons_length in Hr0.
    destruct (d =? cu ",").
    { intros H. eapply prepend_length in H; [exact H|].
      intros l' r' Hp. apply IHe in Hp. lia. }
    destruct (d =? cu "]"); [|done]. intros [= <- <-]. lia.
  - intros s ms r. cbn [parse_members].
    destruct (skip_ws s) as [|q r0] eqn:Hs; [done|].
    apply skip_ws_cons_length in Hs.
    destruct (q =? quotation_mark); [|done].
    destruct (parse_chars r0) as [[key r1]|] eqn:Hc; cbn [mbind option_bind]; [|done].
    apply parse_chars_length in Hc.
    destruct (skip_ws r1) as [|colon r2] eqn:Hr1; [done|].
    apply skip_ws_cons_length in Hr1.
    destruct (colon =? cu ":"); [|done].
    destruct (parse_value fuel r2) as [[v r3]|] eqn:Hv; cbn [mbind option_bind]; [|done].
    apply IHv in Hv.
    destruct (skip_ws r3) as [|d r4] eqn:Hr3; [done|].
    apply skip_ws_cons_length in Hr3.
    destruct (d =? cu ",").
    { intros H. eapply prepend_length in H; [exact H|].
      intros l' r' Hp. apply IHm in Hp. lia. }
    destruct (d =? cu "}"); [|done]. intros [= <- <-]. lia.
Qed.

Local Close Scope N_scope.

Local Open Scope N_scope.

Lemma parse_fuel_stable_bounded n :
  ∀ s, (length s < n)%nat →
    (∀ f f', (2 * length s + 1 ≤ f)%nat → (2 * length s + 1 ≤ f')%nat →
             parse_value f s = parse_value f' s) ∧
    (∀ f f', (2 * length s + 2 ≤ f)%nat → (2 * length s + 2 ≤ f')%nat →
             parse_elements f s = parse_elements f' s) ∧
    (∀ f f', (2 * length s + 2 ≤ f)%nat → (2 * length s + 2 ≤ f')%nat →
             parse_members f s = parse_members f' s).
Proof.
  induction n as [|n IH]; intros s Hn; [lia|].
  assert (Hvalue : ∀ f f', (2 * length s + 1 ≤ f)%nat →
                           (2 * length s + 1 ≤ f')%nat →
                           parse_value f s = parse_value f' s).
  { intros [|g] [|g'] Hf Hf'; try lia. cbn [parse_value].
    destruct (skip_ws s) as [|c r] eqn:Hs; [done|].
    apply skip_ws_cons_length in Hs.
    destruct (IH r ltac:(lia)) as (_ & IHe & IHm).
    by rewrite (IHe g g'), (IHm g g') by lia. }
  split; [exact Hvalue|]. split.
  - intros [|g] [|g'] Hf Hf'; try lia. cbn [parse_elements].
    rewrite (Hvalue g g') by lia.
    destruct (parse_value g' s) as [[v r0]|] eqn:Hv;
      cbn [mbind option_bind]; [|done].
    apply parse_consumes in Hv.
    destruct (skip_ws r0) as [|d r1] eqn:Hr0; [done|].
    apply skip_ws_cons_length in Hr0.
    destruct (IH r1 ltac:(lia)) as (_ & IHe & _).
    by rewrite (IHe g g') by lia.
  - intros [|g] [|g'] Hf Hf'; try lia. cbn [parse_members].
    destruct (skip_ws s) as [|q r0] eqn:Hs; [done|].
    apply skip_ws_cons_length in Hs.
    destruct (q =? quotation_mark); [|done].
    destruct (parse_chars r0) as [[key r1]|] eqn:Hc;
      cbn [mbind option_bind]; [|done].
    apply parse_chars_length in Hc.
    destruct (skip_ws r1) as [|colon r2] eqn:Hr1; [done|].
    apply skip_ws_cons_length in Hr1.
    destruct (colon =? cu ":"); [|done].
    destruct (IH r2 ltac:(lia)) as (IHv & _ & _).
    rewrite (IHv g g') by lia.
    destruct (parse_value g' r2) as [[v r3]|] eqn:Hv;
      cbn [mbind option_bind]; [|done].
    apply parse_consumes in Hv.
    destruct (skip_ws r3) as [|d r4] eqn:Hr3; [done|].
    apply skip_ws_cons_length in Hr3.
    destruct (IH r4 ltac:(lia)) as (_ & _ & IHm).
    by rewrite (IHm g g') by lia.
Qed.

(** The fuel of [JSON_parse] is enough for every text: with more fuel the
    parser gives the same result. *)
Lemma JSON_parse_fuel t fuel :
  (2 * length t + 1 ≤ fuel)%nat →
  parse_value fuel t = parse_value (2 * length t + 2) t.
Proof.
  intros Hfuel.
  destruct (parse_fuel_stable_bounded (S (length t)) t ltac:(lia))
    as (Hvalue & _ & _).
  apply Hvalue; lia.
Qed.

Local Close Scope N_scope.

(** ** The board that a prompting handler writes *)

(** X22.  The handler of [add-card] suspends at the input box holding the
    board that it parsed before; whatever the document is when the box is
    answered, the handler writes that board with the new card, over the
    range of the text it read before. *)
Lemma add_card_writes_captured_board lower now h data columnId i col :
  load (document h) = Some data →
  find_column columnId (columns data) = Some (i, col) →
  ∃ resume,
    start (onDidReceiveMessage lower (AddCard columnId)) now h
      = Awaiting {| document := document h;
                    log := Prompted (lit "New Card Title") :: log h |}
                 resume ∧
    ∀ h2 parsed2 c title now2,
      JSON_parse (document h2) = Some parsed2 →
      document (run (resume (Some (c :: title))) (Some (c :: title)) now2 h2).1
      = replace_range (length (document h))
          (serialize_board
             {| columns :=
                  set_cards i
                    (Column.cards col
                       ++ [Card.mk (lit "card-" ++ Number_toString now2)
                                   (c :: title)])
                    (columns data) |})
          (document h2).
Proof.
  intros Hload Hcol.
  destruct (load_parsed _ _ Hload) as (parsed & Hparse & Hboard).
  unfold onDidReceiveMessage.
  change (start (getText ≫= ?f) now h) with (start (f (document h)) now h).
  cbv beta. rewrite Hparse, Hboard. eexists. split; [reflexivity|].
  intros h2 parsed2 c title now2 Hparse2.
  cbv beta. rewrite Hcol.
  match goal with
  | |- context [run (?g _ _ ?p ?f) ?a now2 h2] =>
    change (run (g _ _ p f) a now2 h2) with (run (p ≫= f) a now2 h2)
  end.
  rewrite run_bind.
  change (run (dateNow ≫= ?k) ?a now2 h2) with (run (k now2) a now2 h2).
  cbv beta. rewrite run_bind, (run_sendData _ _ _ parsed2) by done.
  reflexivity.
Qed.

(** A card that is not in its column is not moved, and the drop still posts
    the [update] message with the state, which the editor writes. *)
Lemma ondrop_card_unresolved_card state fromColumn colId draggedId index
    fi fc :
  find_column fromColumn (columns state) = Some (fi, fc) →
  find_card draggedId (Column.cards fc) = None →
  ondrop_card state fromColumn colId draggedId index
  = (Returns state, Some (Update state)).
Proof.
  intros Hfrom Hcard. unfold ondrop_card.
  by rewrite (moveCard_unresolved_card _ _ _ _ _ _ _ Hfrom Hcard).
Qed.


(** The board read from the text written for a board. *)
Lemma serialize_board_parses b :
  JSON_parse (serialize_board b) = Some (json_of_board b).
Proof. apply JSON_parse_stringify, number_free_board. Qed.

Lemma serialize_board_loads b : load (serialize_board b) = Some b.
Proof.
  unfold load. rewrite serialize_board_parses. apply board_of_json_of_board.
Qed.

(** * Further properties of the code *)

(** ** [moveCard]: where the card lands and what it keeps *)

Lemma set_cards_id i c cols :
  cols !! i = Some c → set_cards i (Column.cards c) cols = cols.
Proof.
  intros Hi. unfold set_cards. apply list_eq. intros k.
  destruct (decide (i = k)) as [<-|Hne].
  - rewrite list_lookup_alter_eq, Hi. by destruct c.
  - by rewrite list_lookup_alter_ne.
Qed.

Lemma set_cards_set_cards i cs cs' cols :
  set_cards i cs' (set_cards i cs cols) = set_cards i cs' cols.
Proof.
  unfold set_cards. rewrite list_alter_alter_eq. by apply list_alter_ext.
Qed.

(** The cards of the board around those of the column at [i]. *)
Lemma all_cards_split i c cols :
  cols !! i = Some c →
  ∃ pre post,
    concat (Column.cards <$> cols) = pre ++ Column.cards c ++ post ∧
    ∀ cs, concat (Column.cards <$> set_cards i cs cols) = pre ++ cs ++ post.
Proof.
  revert i. induction cols as [|c0 cols IH]; intros [|i] Hi; simplify_eq/=.
  - exists [], (concat (Column.cards <$> cols)). done.
  - destruct (IH _ Hi) as (pre & post & Hall & Hset).
    exists (Column.cards c0 ++ pre), post. split.
    + by rewrite Hall, <- app_assoc.
    + intros cs. unfold set_cards in *. by rewrite Hset, <- app_assoc.
Qed.

Lemma insert_at_Permutation {A} p (x : A) l : insert_at p x l ≡ₚ x :: l.
Proof.
  unfold insert_at. etrans; [symmetry; apply Permutation_middle|].
  by rewrite take_drop.
Qed.

Lemma all_cards_set_cards_remove i c cols k x :
  cols !! i = Some c → Column.cards c !! k = Some x →
  x :: concat (Column.cards <$> set_cards i (delete k (Column.cards c)) cols)
    ≡ₚ concat (Column.cards <$> cols).
Proof.
  intros Hi Hk. destruct (all_cards_split _ _ _ Hi) as (pre & post & -> & ->).
  rewrite (delete_Permutation _ _ _ Hk) at 2.
  by rewrite Permutation_middle.
Qed.

Lemma all_cards_set_cards_insert i c cols p x :
  cols !! i = Some c →
  concat (Column.cards <$> set_cards i (insert_at p x (Column.cards c)) cols)
    ≡ₚ x :: concat (Column.cards <$> cols).
Proof.
  intros Hi. destruct (all_cards_split _ _ _ Hi) as (pre & post & -> & ->).
  rewrite insert_at_Permutation. cbn [app]. symmetry.
  apply Permutation_middle.
Qed.

(** X1.  When the ids resolve, the board after [moveCard] holds the same
    cards as before, each as often as before: no card is lost, duplicated or
    changed. *)
Theorem moveCard_same_cards state fromId toId cardId toIndex
    fi fc ti tc fromIdx card :
  find_column fromId (columns state) = Some (fi, fc) →
  find_column toId (columns state) = Some (ti, tc) →
  find_card cardId (Column.cards fc) = Some (fromIdx, card) →
  ∃ state',
    moveCard state fromId toId cardId toIndex = Returns state' ∧
    all_cards state' ≡ₚ all_cards state.
Proof.
  intros Hfrom Hto Hcard.
  pose proof (from_lookup _ _ _ _ Hfrom) as Hfi.
  pose proof (to_lookup _ _ _ _ Hto) as Hti.
  pose proof (card_lookup _ _ _ _ Hcard) as Hci.
  eexists. split; [by eapply moveCard_resolved|].
  unfold all_cards. cbn [columns].
  set (rest := delete fromIdx (Column.cards fc)).
  pose proof (all_cards_set_cards_remove _ _ _ _ _ Hfi Hci) as Hrem.
  fold rest in Hrem. rewrite <- Hrem.
  destruct (decide (ti = fi)) as [->|Hne].
  - rewrite set_cards_set_cards.
    pose proof (set_cards_lookup_eq fi rest _ _ Hfi) as Hfi'.
    pose proof (all_cards_set_cards_insert fi _ _
                  (landing fromId toId fromIdx toIndex rest) card Hfi') as Hins.
    cbn [Column.cards] in Hins. by rewrite set_cards_set_cards in Hins.
  - assert (set_cards fi rest (columns state) !! ti = Some tc) as Hti'
      by by rewrite set_cards_lookup_ne.
    apply (all_cards_set_cards_insert ti _ _ _ card Hti').
Qed.

Lemma moveCard_same_cards_witness :
  ∃ state',
    moveCard scenario_board (lit "a") (lit "b") (lit "c2") None
      = Returns state' ∧
    all_cards state' ≡ₚ all_cards scenario_board.
Proof.
  exact (moveCard_same_cards scenario_board (lit "a") (lit "b") (lit "c2")
           None 0%nat column_a 1%nat column_b 1%nat card_c2
           eq_refl eq_refl eq_refl).
Defined.

Lemma landing_nat fromId toId fromIdx (j : Z) final toCards :
  finalIndex fromId toId fromIdx (Some j) = Some final → 0 ≤ final →
  landing fromId toId fromIdx (Some j) toCards
  = Z.to_nat (Z.min final (Z.of_nat (length toCards))).
Proof.
  intros Hfinal Hpos. unfold landing. rewrite Hfinal. simpl.
  unfold relative_start. replace (final <? 0) with false by (symmetry; lia).
  done.
Qed.

Lemma insert_at_delete_same {A} i (x : A) l :
  l !! i = Some x → insert_at i x (delete i l) = l.
Proof.
  intros Hi. pose proof (lookup_lt_Some _ _ _ Hi) as Hlt.
  unfold insert_at. rewrite delete_take_drop.
  rewrite take_app_le, take_take, Nat.min_id by (rewrite length_take; lia).
  rewrite drop_app_ge, length_take, Nat.min_l, Nat.sub_diag by
    (rewrite ?length_take; lia).
  simpl. by apply take_drop_middle.
Qed.

(** X2.  Moving the card found at index [i] of a column to an index [j] of
    the same column that is not behind it ([0 ≤ j ≤ i]) puts it at index [j]
    exactly; the other cards keep their order. *)
Theorem moveCard_same_column_backward state colId cardId ci col i card j :
  find_column colId (columns state) = Some (ci, col) →
  find_card cardId (Column.cards col) = Some (i, card) →
  0 ≤ j ≤ Z.of_nat i →
  ∃ state' col',
    moveCard state colId colId cardId (Some j) = Returns state' ∧
    columns state' !! ci = Some col' ∧
    Column.cards col' !! Z.to_nat j = Some card ∧
    delete (Z.to_nat j) (Column.cards col') = delete i (Column.cards col).
Proof.
  intros Hcol Hcard Hj.
  pose proof (lookup_lt_Some _ _ _ (card_lookup _ _ _ _ Hcard)) as Hlt.
  destruct (moveCard_shape _ _ _ _ (Some j) _ _ _ _ _ _ Hcol Hcol Hcard)
    as (state' & Hmove & _ & _ & _ & Hdst & _).
  rewrite decide_True in Hdst by done.
  set (rest := delete i (Column.cards col)) in *.
  assert (Hrest : length rest = (length (Column.cards col) - 1)%nat).
  { unfold rest. by rewrite length_delete by (apply lookup_lt_is_Some; lia). }
  assert (Hland : landing colId colId i (Some j) rest = Z.to_nat j).
  { rewrite (landing_nat _ _ _ _ j); [lia| |lia].
    unfold finalIndex.
    replace (Z.of_nat i <? j) with false by (symmetry; lia).
    by rewrite andb_false_r. }
  rewrite Hland in Hdst.
  eexists _, _. split_and!; [done..| |]; cbn [Column.cards].
  - apply insert_at_lookup. lia.
  - apply insert_at_delete. lia.
Qed.

Lemma moveCard_same_column_backward_witness :
  ∃ state' col',
    moveCard scenario_board (lit "a") (lit "a") (lit "c2") (Some 0)
      = Returns state' ∧
    columns state' !! 0%nat = Some col' ∧
    Column.cards col' !! 0%nat = Some card_c2 ∧
    delete 0%nat (Column.cards col') = delete 1%nat (Column.cards column_a).
Proof.
  exact (moveCard_same_column_backward scenario_board (lit "a") (lit "c2")
           0%nat column_a 1%nat card_c2 0 eq_refl eq_refl
           ltac:(split; discriminate)).
Defined.

(** X3.  Moving a card to another column puts it in front of the card that
    is at the requested index [j ≥ 0] of that column, or at the end when the
    column has no more than [j] cards or the index is [undefined]; the
    source column loses the card, and both keep the order of their other
    cards. *)
Theorem moveCard_other_column state fromId toId cardId
    fi fc ti tc fromIdx card :
  find_column fromId (columns state) = Some (fi, fc) →
  find_column toId (columns state) = Some (ti, tc) →
  find_card cardId (Column.cards fc) = Some (fromIdx, card) →
  fromId ≠ toId →
  ∀ toIndex p,
    match toIndex with
    | Some j => 0 ≤ j ∧
                p = Z.to_nat (Z.min j (Z.of_nat (length (Column.cards tc))))
    | None => p = length (Column.cards tc)
    end →
    ∃ state',
      moveCard state fromId toId cardId toIndex = Returns state' ∧
      columns state' !! ti
        = Some (Column.mk (Column.id tc) (Column.title tc)
                          (insert_at p card (Column.cards tc))) ∧
      columns state' !! fi
        = Some (Column.mk (Column.id fc) (Column.title fc)
                          (delete fromIdx (Column.cards fc))).
Proof.
  intros Hfrom Hto Hcard Hids toIndex p Hp.
  assert (Hne : ti ≠ fi).
  { intros ->. apply list_find_Some in Hfrom as (Hf & Hfid & _).
    apply list_find_Some in Hto as (Ht & Htid & _). congruence. }
  destruct (moveCard_shape _ _ _ _ toIndex _ _ _ _ _ _ Hfrom Hto Hcard)
    as (state' & Hmove & _ & _ & _ & Hdst & Hsrc).
  rewrite decide_False in Hdst by done.
  exists state'. split_and!; [done| |by apply Hsrc].
  rewrite Hdst. do 3 f_equal.
  destruct toIndex as [j|].
  - destruct Hp as [Hj ->]. apply (landing_nat _ _ _ j); [|done].
    unfold finalIndex. by rewrite bool_decide_eq_false_2.
  - subst p. unfold landing. simpl. by rewrite relative_start_nat, Nat.min_id.
Qed.

Lemma moveCard_other_column_witness :
  ∃ state',
    moveCard scenario_board (lit "a") (lit "b") (lit "c1") (Some 3)
      = Returns state' ∧
    columns state' !! 1%nat
      = Some (Column.mk (lit "b") (lit "B") [card_c1]) ∧
    columns state' !! 0%nat
      = Some (Column.mk (lit "a") (lit "A") [card_c2]).
Proof.
  exact (moveCard_other_column scenario_board (lit "a") (lit "b") (lit "c1")
           0%nat column_a 1%nat column_b 0%nat card_c1
           eq_refl eq_refl eq_refl ltac:(discriminate)
           (Some 3) 0%nat ltac:(split; [discriminate|reflexivity])).
Defined.

(** X4.  A card dropped at its own index, or at the index just behind it,
    stays where it is: [moveCard] returns the state it was given. *)
Theorem moveCard_own_position state colId cardId ci col i card j :
  find_column colId (columns state) = Some (ci, col) →
  find_card cardId (Column.cards col) = Some (i, card) →
  j = Z.of_nat i ∨ j = Z.of_nat i + 1 →
  moveCard state colId colId cardId (Some j) = Returns state.
Proof.
  intros Hcol Hcard Hj.
  pose proof (from_lookup _ _ _ _ Hcol) as Hci.
  pose proof (card_lookup _ _ _ _ Hcard) as Hi.
  pose proof (lookup_lt_Some _ _ _ Hi) as Hlt.
  rewrite (moveCard_resolved _ _ _ _ _ _ _ _ _ _ Hcol Hcol Hcard).
  rewrite decide_True by done. rewrite set_cards_set_cards.
  set (rest := delete i (Column.cards col)).
  assert (Hland : landing colId colId i (Some j) rest = i).
  { assert (Hrest : length rest = (length (Column.cards col) - 1)%nat).
    { unfold rest.
      by rewrite length_delete by (apply lookup_lt_is_Some; lia). }
    rewrite (landing_nat _ _ _ _ (Z.of_nat i)); [lia| |lia].
    unfold finalIndex. rewrite bool_decide_eq_true_2 by done.
    destruct Hj as [-> | ->].
    - by replace (Z.of_nat i <? Z.of_nat i) with false by (symmetry; lia).
    - replace (Z.of_nat i <? Z.of_nat i + 1) with true by (symmetry; lia).
      replace (Z.of_nat i + 1 >? Z.of_nat i) with true by (symmetry; lia).
      simpl. f_equal. lia. }
  rewrite Hland. unfold rest. rewrite (insert_at_delete_same _ _ _ Hi).
  rewrite (set_cards_id _ _ _ Hci). by destruct state.
Qed.

Lemma moveCard_own_position_witness :
  moveCard scenario_board (lit "a") (lit "a") (lit "c1") (Some 1)
  = Returns scenario_board.
Proof.
  exact (moveCard_own_position scenario_board (lit "a") (lit "c1")
           0%nat column_a 0%nat card_c1 1 eq_refl eq_refl
           ltac:(right; reflexivity)).
Defined.

(** ** The drop of a card *)









(** ** The dispatcher, branch by branch *)

#[local] Arguments splice : simpl never.
#[local] Arguments serialize_board : simpl never.
#[local] Arguments JSON_parse : simpl never.
#[local] Arguments replace_range : simpl never.

(** X7.  The [update] message that a drop posts makes the document the
    serialization of the webview's state, whatever board the document held:
    read back, the document is the state after the drop. *)
Theorem drop_is_persisted lower answer now h data
    state fromColumn colId draggedId afterElement state' msg :
  ondrop state fromColumn colId draggedId afterElement
    = (Returns state', Some msg) →
  load (document h) = Some data →
  ∃ h',
    run (onDidReceiveMessage lower msg) answer now h = (h', Some tt) ∧
    document h' = serialize_board state' ∧
    load (document h') = Some state'.
Proof.
  intros Hdrop Hload.
  assert (msg = Update state') as ->.
  { unfold ondrop, ondrop_card in Hdrop.
    destruct (find_column colId (columns state)) as [[ti tc]|]; [|done].
    destruct (moveCard _ _ _ _ _); by simplify_eq. }
  rewrite (run_onDidReceiveMessage _ _ _ _ _ _ Hload). cbn [branch run mret
    Proc_ret]. rewrite replace_range_all. eexists. split; [done|].
  cbn [document]. split; [done|]. apply serialize_board_loads.
Qed.

Lemma drop_is_persisted_witness :
  ∃ h',
    run (onDidReceiveMessage ascii_toLowerCase
           (Update {| columns := [Column.mk (lit "a") (lit "A") [card_c2];
                                  Column.mk (lit "b") (lit "B") [card_c1]] |}))
        None 0%N {| document := serialize_board scenario_board; log := [] |}
      = (h', Some tt) ∧
    document h'
      = serialize_board
          {| columns := [Column.mk (lit "a") (lit "A") [card_c2];
                         Column.mk (lit "b") (lit "B") [card_c1]] |} ∧
    load (document h')
      = Some {| columns := [Column.mk (lit "a") (lit "A") [card_c2];
                            Column.mk (lit "b") (lit "B") [card_c1]] |}.
Proof.
  exact (drop_is_persisted ascii_toLowerCase None 0%N
           {| document := serialize_board scenario_board; log := [] |}
           scenario_board scenario_board (lit "a") (lit "b") (lit "c1")
           None _ _
           ltac:(vm_compute; reflexivity) ltac:(vm_compute; reflexivity)).
Defined.

(** X8.  When the input box is dismissed or left empty, [add-column] and
    [add-card] change nothing: the document stays as it is, and nothing is
    written, saved or posted. *)
Theorem prompt_cancelled_changes_nothing lower msg answer now h data :
  load (document h) = Some data →
  msg = AddColumn ∨ (∃ columnId, msg = AddCard columnId) →
  answer = None ∨ answer = Some [] →
  ∃ prompt,
    run (onDidReceiveMessage lower msg) answer now h
    = ({| document := document h; log := Prompted prompt :: log h |},
       Some tt).
Proof.
  intros Hload Hmsg Hanswer.
  rewrite (run_onDidReceiveMessage _ _ _ _ _ _ Hload).
  destruct Hmsg as [->|[columnId ->]]; destruct Hanswer as [->| ->];
    eexists; reflexivity.
Qed.

Lemma prompt_cancelled_changes_nothing_witness :
  ∃ prompt,
    run (onDidReceiveMessage ascii_toLowerCase (AddCard (lit "a"))) None 0%N
        {| document := serialize_board scenario_board; log := [] |}
    = ({| document := serialize_board scenario_board;
          log := [Prompted prompt] |}, Some tt).
Proof.
  exact (prompt_cancelled_changes_nothing ascii_toLowerCase
           (AddCard (lit "a")) None 0%N
           {| document := serialize_board scenario_board; log := [] |}
           scenario_board ltac:(vm_compute; reflexivity)
           (or_intror (ex_intro _ (lit "a") eq_refl)) (or_introl eq_refl)).
Defined.

Lemma total_cards_delete i cols c :
  cols !! i = Some c →
  (total_cards {| columns := delete i cols |} + length (Column.cards c)
   = total_cards {| columns := cols |})%nat.
Proof.
  unfold total_cards. simpl. revert i.
  induction cols as [|c0 cols IH]; intros [|i] H; simplify_eq/=; [lia|].
  specialize (IH _ H). lia.
Qed.

(** X9.  [delete-column] takes out the first column with that id, with its
    cards; the other columns stay, in their order, and the board is written
    and saved. *)
Theorem delete_column_removes lower answer now h data columnId i col :
  load (document h) = Some data →
  find_column columnId (columns data) = Some (i, col) →
  ∃ data',
    run (onDidReceiveMessage lower (DeleteColumn columnId)) answer now h
      = ({| document := serialize_board data';
            log := Saved :: Edited (serialize_board data') :: log h |},
         Some tt) ∧
    columns data' = delete i (columns data) ∧
    (total_cards data' + length (Column.cards col))%nat = total_cards data.
Proof.
  intros Hload Hcol.
  pose proof (from_lookup _ _ _ _ Hcol) as Hi.
  rewrite (run_onDidReceiveMessage _ _ _ _ _ _ Hload).
  unfold branch. rewrite Hcol, (splice_remove _ _ _ Hi).
  cbn [run mret Proc_ret fst]. rewrite replace_range_all.
  eexists {| columns := _ |}. split_and!; [done..|].
  destruct data as [cols]. by apply total_cards_delete.
Qed.

Lemma delete_column_removes_witness :
  ∃ data',
    run (onDidReceiveMessage ascii_toLowerCase (DeleteColumn (lit "a")))
        None 0%N {| document := serialize_board scenario_board; log := [] |}
      = ({| document := serialize_board data';
            log := [Saved; Edited (serialize_board data')] |}, Some tt) ∧
    columns data' = [column_b] ∧
    (total_cards data' + 2)%nat = total_cards scenario_board.
Proof.
  exact (delete_column_removes ascii_toLowerCase None 0%N
           {| document := serialize_board scenario_board; log := [] |}
           scenario_board (lit "a") 0%nat column_a
           ltac:(vm_compute; reflexivity) eq_refl).
Defined.

(** X10.  [delete-card] takes the first card with that id out of the first
    column with that id: the board has this one card less and every other
    card as before, the columns keep their ids and titles, and the board is
    written and saved. *)
Theorem delete_card_removes lower answer now h data columnId cardId
    i col k card :
  load (document h) = Some data →
  find_column columnId (columns data) = Some (i, col) →
  find_card cardId (Column.cards col) = Some (k, card) →
  ∃ data',
    run (onDidReceiveMessage lower (DeleteCard columnId cardId)) answer now h
      = ({| document := serialize_board data';
            log := Saved :: Edited (serialize_board data') :: log h |},
         Some tt) ∧
    columns data'
      = set_cards i (delete k (Column.cards col)) (columns data) ∧
    card :: all_cards data' ≡ₚ all_cards data ∧
    S (total_cards data') = total_cards data.
Proof.
  intros Hload Hcol Hcard.
  pose proof (from_lookup _ _ _ _ Hcol) as Hi.
  pose proof (card_lookup _ _ _ _ Hcard) as Hk.
  rewrite (run_onDidReceiveMessage _ _ _ _ _ _ Hload).
  unfold branch. rewrite Hcol, Hcard, (splice_remove _ _ _ Hk).
  cbn [run mret Proc_ret fst]. rewrite replace_range_all.
  eexists {| columns := _ |}. split_and!; [done..| |].
  - apply (all_cards_set_cards_remove _ _ _ _ _ Hi Hk).
  - pose proof (total_cards_set_cards i (delete k (Column.cards col)) _ _ Hi)
      as H.
    pose proof (lookup_lt_Some _ _ _ Hk).
    rewrite length_delete in H by eauto.
    destruct data as [cols]. cbn [columns] in *. lia.
Qed.

Lemma delete_card_removes_witness :
  ∃ data',
    run (onDidReceiveMessage ascii_toLowerCase
           (DeleteCard (lit "a") (lit "c2")))
        None 0%N {| document := serialize_board scenario_board; log := [] |}
      = ({| document := serialize_board data';
            log := [Saved; Edited (serialize_board data')] |}, Some tt) ∧
    columns data' = [Column.mk (lit "a") (lit "A") [card_c1]; column_b] ∧
    card_c2 :: all_cards data' ≡ₚ all_cards scenario_board ∧
    S (total_cards data') = total_cards scenario_board.
Proof.
  exact (delete_card_removes ascii_toLowerCase None 0%N
           {| document := serialize_board scenario_board; log := [] |}
           scenario_board (lit "a") (lit "c2") 0%nat column_a 1%nat card_c2
           ltac:(vm_compute; reflexivity) eq_refl eq_refl).
Defined.

(** ** What every message leaves behind *)

Lemma run_sendData_any answer now h :
  ∃ l, run sendData answer now h
       = ({| document := document h; log := l ++ log h |}, Some tt).
Proof.
  destruct (JSON_parse (document h)) as [parsed|] eqn:Hparse.
  - exists [Posted parsed]. by apply run_sendData.
  - exists []. unfold sendData.
    change (run (getText ≫= ?f) answer now h)
      with (run (f (document h)) answer now h).
    cbv beta. rewrite Hparse. by destruct h.
Qed.

(** The branch of a message leaves the document alone: it is the tail of
    the listener that writes. *)
Lemma run_branch lower data msg answer now h :
  ∃ l data' dirty,
    run (branch lower data msg) answer now h
    = ({| document := document h; log := l ++ log h |}, Some (data', dirty)).
Proof.
  assert (Hret : ∀ r : Board * bool,
            ∃ l data' dirty,
              (h, Some r)
              = ({| document := document h; log := l ++ log h |},
                 Some (data', dirty))).
  { intros [d b]. exists [], d, b. by destruct h. }
  assert (Hcreate : ∀ p (r : Board * bool),
            ∃ l data' dirty,
              run (dateNow ≫= λ _ : N, sendData ≫= λ _, mret r) answer now
                  {| document := document h; log := Prompted p :: log h |}
              = ({| document := document h; log := l ++ log h |},
                 Some (data', dirty))).
  { intros p [d b].
    change (run (dateNow ≫= ?k) ?a now ?h0) with (run (k now) a now h0).
    cbv beta. rewrite run_bind.
    destruct (run_sendData_any answer now
                {| document := document h; log := Prompted p :: log h |})
      as [l ->].
    exists (l ++ [Prompted p]), d, b. cbn [run mret Proc_ret document log].
    by rewrite <- app_assoc. }
  destruct msg as [d | columnId | columnId newTitle | | columnId
                  | columnId cardId | fromId toId | ]; unfold branch.
  - apply Hret.
  - destruct (find_column _ _) as [[i c]|]; apply Hret.
  - destruct (find_column _ _) as [[i c]|]; apply Hret.
  - change (run (showInputBox ?p ≫= ?f) answer now h)
      with (run (f answer) answer now
                {| document := document h; log := Prompted p :: log h |}).
    cbv beta. destruct answer as [[|c title]|];
      [by eexists [_], _, _| |by eexists [_], _, _].
    apply (Hcreate (lit "New Column Title")
             ({| columns := columns data ++ [Column.mk _ (c :: title) []] |},
              true)).
  - change (run (showInputBox ?p ≫= ?f) answer now h)
      with (run (f answer) answer now
                {| document := document h; log := Prompted p :: log h |}).
    cbv beta. destruct answer as [[|c title]|];
      [by eexists [_], _, _| |by eexists [_], _, _].
    destruct (find_column _ _) as [[i col]|]; [|by eexists [_], _, _].
    apply (Hcreate (lit "New Card Title")
             ({| columns := set_cards i _ (columns data) |}, true)).
  - destruct (find_column _ _) as [[i c]|]; [|apply Hret].
    destruct (find_card _ _) as [[k x]|]; apply Hret.
  - destruct (find_column fromId _) as [[fi fc]|]; [|apply Hret].
    destruct (find_column toId _) as [[ti tc]|]; [|apply Hret].
    destruct (decide (fi ≠ ti)); apply Hret.
  - apply Hret.
Qed.

(** X11.  A message that is handled with nothing in between leaves a board
    document a board document: whatever the message and the answer of the
    input box, the listener returns, and the text of the document parses to
    a board afterwards. *)
Theorem handler_keeps_board_document lower msg answer now h :
  is_Some (load (document h)) →
  ∃ h',
    run (onDidReceiveMessage lower msg) answer now h = (h', Some tt) ∧
    is_Some (load (document h')).
Proof.
  intros [data Hload].
  rewrite (run_onDidReceiveMessage _ _ _ _ _ _ Hload).
  destruct (run_branch lower data msg answer now h)
    as (l & data' & [|] & ->).
  - eexists. split; [done|]. cbn [document].
    rewrite replace_range_all. exists data'. apply serialize_board_loads.
  - eexists. split; [done|]. cbn [document]. by exists data.
Qed.

Lemma handler_keeps_board_document_witness :
  ∃ h',
    run (onDidReceiveMessage ascii_toLowerCase AddColumn)
        (Some (lit "Later")) 9%N
        {| document := serialize_board scenario_board; log := [] |}
      = (h', Some tt) ∧
    is_Some (load (document h')).
Proof.
  exact (handler_keeps_board_document ascii_toLowerCase AddColumn
           (Some (lit "Later")) 9%N
           {| document := serialize_board scenario_board; log := [] |}
           (ex_intro
              (λ data, load (serialize_board scenario_board) = Some data)
              scenario_board ltac:(vm_compute; reflexivity))).
Defined.

Lemma run_AddColumn lower now h data parsed c title :
  JSON_parse (document h) = Some parsed →
  board_of_json parsed = Some data →
  let data' :=
    {| columns :=
         columns data
           ++ [Column.mk (slug lower (c :: title) ++ lit "-"
                            ++ Number_toString now) (c :: title) []] |} in
  run (onDidReceiveMessage lower AddColumn) (Some (c :: title)) now h
  = ({| document := serialize_board data';
        log := Saved :: Edited (serialize_board data') :: Posted parsed
                 :: Prompted (lit "New Column Title") :: log h |}, Some tt).
Proof.
  intros Hparse Hboard data'.
  assert (Hload : load (document h) = Some data)
    by (unfold load; by rewrite Hparse).
  rewrite (run_onDidReceiveMessage _ _ _ _ _ _ Hload).
  unfold branch.
  change (run (showInputBox ?p ≫= ?f) ?a now h)
    with (run (f a) a now
              {| document := document h; log := Prompted p :: log h |}).
  cbv beta iota.
  change (run (dateNow ≫= ?f) ?a now ?h0) with (run (f now) a now h0).
  cbv beta zeta. rewrite run_bind, (run_sendData _ _ _ parsed) by done.
  cbn [run mret Proc_ret document log]. by rewrite replace_range_all.
Qed.

Lemma run_AddCard lower now h data parsed c title columnId i col :
  JSON_parse (document h) = Some parsed →
  board_of_json parsed = Some data →
  find_column columnId (columns data) = Some (i, col) →
  let data' :=
    {| columns :=
         set_cards i
           (Column.cards col
              ++ [Card.mk (lit "card-" ++ Number_toString now) (c :: title)])
           (columns data) |} in
  run (onDidReceiveMessage lower (AddCard columnId)) (Some (c :: title)) now h
  = ({| document := serialize_board data';
        log := Saved :: Edited (serialize_board data') :: Posted parsed
                 :: Prompted (lit "New Card Title") :: log h |}, Some tt).
Proof.
  intros Hparse Hboard Hcol data'.
  assert (Hload : load (document h) = Some data)
    by (unfold load; by rewrite Hparse).
  rewrite (run_onDidReceiveMessage _ _ _ _ _ _ Hload).
  unfold branch.
  change (run (showInputBox ?p ≫= ?f) ?a now h)
    with (run (f a) a now
              {| document := document h; log := Prompted p :: log h |}).
  cbv beta iota. rewrite Hcol.
  change (run (dateNow ≫= ?f) ?a now ?h0) with (run (f now) a now h0).
  cbv beta zeta. rewrite run_bind, (run_sendData _ _ _ parsed) by done.
  cbn [run mret Proc_ret document log]. by rewrite replace_range_all.
Qed.

(** X12.  The snapshot that [add-column] and [add-card] post to the webview
    is taken before the edit is applied: it is the board without the new
    column or card.  Between the prompt and the edit the listener posts
    exactly this one snapshot. *)
Theorem create_posts_board_before lower now h data title :
  load (document h) = Some data →
  title ≠ [] →
  ∃ parsed,
    board_of_json parsed = Some data ∧
    (∃ newText,
       log (run (onDidReceiveMessage lower AddColumn) (Some title) now h).1
       = Saved :: Edited newText :: Posted parsed
           :: Prompted (lit "New Column Title") :: log h) ∧
    (∀ columnId i col,
       find_column columnId (columns data) = Some (i, col) →
       ∃ newText,
         log (run (onDidReceiveMessage lower (AddCard columnId))
                  (Some title) now h).1
         = Saved :: Edited newText :: Posted parsed
             :: Prompted (lit "New Card Title") :: log h).
Proof.
  intros Hload Htitle.
  destruct (load_parsed _ _ Hload) as (parsed & Hparse & Hboard).
  destruct title as [|c title]; [done|].
  exists parsed. split; [done|]. split.
  - rewrite (run_AddColumn _ _ _ _ _ _ _ Hparse Hboard). by eexists.
  - intros columnId i col Hcol.
    rewrite (run_AddCard _ _ _ _ _ _ _ _ _ _ Hparse Hboard Hcol). by eexists.
Qed.

Lemma create_posts_board_before_witness :
  ∃ parsed,
    board_of_json parsed = Some scenario_board ∧
    (∃ newText,
       log (run (onDidReceiveMessage ascii_toLowerCase AddColumn)
                (Some (lit "Later")) 9%N
                {| document := serialize_board scenario_board; log := [] |}).1
       = [Saved; Edited newText; Posted parsed;
          Prompted (lit "New Column Title")]) ∧
    (∀ columnId i col,
       find_column columnId (columns scenario_board) = Some (i, col) →
       ∃ newText,
         log (run (onDidReceiveMessage ascii_toLowerCase (AddCard columnId))
                  (Some (lit "Later")) 9%N
                  {| document := serialize_board scenario_board;
                     log := [] |}).1
         = [Saved; Edited newText; Posted parsed;
            Prompted (lit "New Card Title")]).
Proof.
  exact (create_posts_board_before ascii_toLowerCase 9%N
           {| document := serialize_board scenario_board; log := [] |}
           scenario_board (lit "Later")
           ltac:(vm_compute; reflexivity) ltac:(discriminate)).
Defined.

Lemma unresolved_is_dropped_witness :
  ∃ prompts,
    run (onDidReceiveMessage ascii_toLowerCase
           (DeleteCard (lit "a") (lit "c9"))) None 0%N
        {| document := serialize_board scenario_board; log := [] |}
      = ({| document := serialize_board scenario_board;
            log := prompts ++ [] |}, Some tt) ∧
    forallb is_prompt prompts = true.
Proof.
  exact (unresolved_is_dropped ascii_toLowerCase
           (DeleteCard (lit "a") (lit "c9")) None 0%N
           {| document := serialize_board scenario_board; log := [] |}
           scenario_board ltac:(vm_compute; reflexivity)
           ltac:(vm_compute; reflexivity)).
Defined.

(** ** [move-column] *)

(** X14.  A column dropped on itself stays: when [fromId] and [toId] find
    the same column, [move-column] writes nothing and the document is as
    before. *)
Theorem move_column_same_slot lower answer now h data fromId toId i c c' :
  load (document h) = Some data →
  find_column fromId (columns data) = Some (i, c) →
  find_column toId (columns data) = Some (i, c') →
  run (onDidReceiveMessage lower (MoveColumn fromId toId)) answer now h
  = (h, Some tt).
Proof.
  intros Hload Hfrom Hto.
  rewrite (run_onDidReceiveMessage _ _ _ _ _ _ Hload).
  unfold branch. rewrite Hfrom, Hto. by rewrite decide_False by auto.
Qed.

Lemma move_column_same_slot_witness :
  run (onDidReceiveMessage ascii_toLowerCase (MoveColumn (lit "b") (lit "b")))
      None 0%N {| document := serialize_board scenario_board; log := [] |}
  = ({| document := serialize_board scenario_board; log := [] |}, Some tt).
Proof.
  exact (move_column_same_slot ascii_toLowerCase None 0%N
           {| document := serialize_board scenario_board; log := [] |}
           scenario_board (lit "b") (lit "b") 1%nat column_b column_b
           ltac:(vm_compute; reflexivity) eq_refl eq_refl).
Defined.

(** X15.  [move-column] only reorders: the board written has the same
    columns as before, each with its id, its title and its cards, so the
    board has the same cards and as many of them. *)
Theorem move_column_reorders_only lower answer now h data fromId toId
    fi fcol ti tcol :
  load (document h) = Some data →
  find_column fromId (columns data) = Some (fi, fcol) →
  find_column toId (columns data) = Some (ti, tcol) →
  fi ≠ ti →
  ∃ data' h',
    run (onDidReceiveMessage lower (MoveColumn fromId toId)) answer now h
      = (h', Some tt) ∧
    document h' = serialize_board data' ∧
    columns data' ≡ₚ columns data ∧
    all_cards data' ≡ₚ all_cards data ∧
    total_cards data' = total_cards data.
Proof.
  intros Hload Hfrom Hto Hne.
  pose proof (from_lookup _ _ _ _ Hfrom) as Hfi.
  rewrite (run_onDidReceiveMessage _ _ _ _ _ _ Hload).
  rewrite (branch_MoveColumn _ _ _ _ _ _ _ _ Hfrom Hto Hne).
  cbn [run]. eexists {| columns := _ |}, _. split; [done|].
  cbn [document]. rewrite replace_range_all. split; [done|].
  assert (Hperm : insert_at ti fcol (delete fi (columns data))
                  ≡ₚ columns data).
  { rewrite insert_at_Permutation. symmetry. by apply delete_Permutation. }
  split; [done|]. unfold all_cards, total_cards. cbn [columns].
  by rewrite Hperm.
Qed.

Lemma move_column_reorders_only_witness :
  ∃ data' h',
    run (onDidReceiveMessage ascii_toLowerCase
           (MoveColumn (lit "b") (lit "a"))) None 0%N
        {| document := serialize_board scenario_board; log := [] |}
      = (h', Some tt) ∧
    document h' = serialize_board data' ∧
    columns data' ≡ₚ columns scenario_board ∧
    all_cards data' ≡ₚ all_cards scenario_board ∧
    total_cards data' = total_cards scenario_board.
Proof.
  exact (move_column_reorders_only ascii_toLowerCase None 0%N
           {| document := serialize_board scenario_board; log := [] |}
           scenario_board (lit "b") (lit "a") 1%nat column_b 0%nat column_a
           ltac:(vm_compute; reflexivity) eq_refl eq_refl ltac:(discriminate)).
Defined.

(** ** [trim], [saveRename] and the name of a new board file *)

Lemma trim_start_split s :
  ∃ ws, s = ws ++ trim_start s ∧ forallb is_js_space ws = true.
Proof.
  induction s as [|c s (ws & Hs & Hws)]; [by exists []|]. simpl.
  destruct (is_js_space c) eqn:Hc.
  - exists (c :: ws). simpl. rewrite Hc, Hws. by rewrite <- Hs.
  - by exists [].
Qed.

Lemma trim_start_head s c :
  head (trim_start s) = Some c → is_js_space c = false.
Proof.
  induction s as [|d s IH]; simpl; [done|].
  destruct (is_js_space d) eqn:Hd; [done|]. simpl. by intros [= <-].
Qed.

Lemma trim_start_fixed s :
  (∀ c, head s = Some c → is_js_space c = false) → trim_start s = s.
Proof. destruct s as [|c s]; [done|]. intros H. simpl. by rewrite H. Qed.

(** What [trim] gives starts and ends with a code unit that is not white
    space, and is a part of the string. *)
Lemma trim_head s c : head (trim s) = Some c → is_js_space c = false.
Proof.
  unfold trim. rewrite head_reverse. intros Hlast.
  destruct (trim_start_split (reverse (trim_start s))) as (ws & Hrev & _).
  apply (trim_start_head s). rewrite <- last_reverse, Hrev, last_app.
  by rewrite Hlast.
Qed.

Lemma trim_last s c : last (trim s) = Some c → is_js_space c = false.
Proof. unfold trim. rewrite last_reverse. apply trim_start_head. Qed.

Lemma trim_split s : ∃ ws1 ws2, s = ws1 ++ trim s ++ ws2.
Proof.
  destruct (trim_start_split s) as (ws1 & Hs & _).
  destruct (trim_start_split (reverse (trim_start s))) as (ws & Hrev & _).
  exists ws1, (reverse ws).
  rewrite Hs at 1. f_equal. unfold trim.
  rewrite <- reverse_app, <- Hrev. by rewrite reverse_involutive.
Qed.

Lemma trim_trim s : trim (trim s) = trim s.
Proof.
  unfold trim at 1.
  rewrite (trim_start_fixed (trim s)) by apply trim_head.
  rewrite trim_start_fixed; [by rewrite reverse_involutive|].
  intros c. rewrite head_reverse. apply trim_last.
Qed.

(** X18.  A [rename-column] message that [saveRename] posts is for the
    column of the title element and carries the trimmed text: a title that
    is not empty, that neither starts nor ends with white space, and that is
    not the title the column has. *)
Theorem saveRename_posts_trimmed col textContent msg content :
  saveRename col textContent = (Some msg, content) →
  ∃ newTitle,
    msg = RenameColumn (Column.id col) newTitle ∧
    newTitle = trim textContent ∧
    newTitle ≠ [] ∧
    newTitle ≠ Column.title col ∧
    (∀ c, head newTitle = Some c ∨ last newTitle = Some c →
          is_js_space c = false).
Proof.
  unfold saveRename.
  destruct (bool_decide (trim textContent ≠ [])) eqn:Hne; [|done].
  destruct (bool_decide (trim textContent ≠ Column.title col)) eqn:Hnew;
    [|done].
  intros [= <- <-]. eexists. split_and!; [done|done|..].
  - by apply bool_decide_eq_true_1 in Hne.
  - by apply bool_decide_eq_true_1 in Hnew.
  - intros c [?|?]; [by eapply trim_head|by eapply trim_last].
Qed.

Lemma saveRename_posts_trimmed_witness :
  ∃ newTitle,
    RenameColumn (lit "a") (lit "To do")
      = RenameColumn (Column.id column_a) newTitle ∧
    newTitle = trim (lit "  To do ") ∧
    newTitle ≠ [] ∧
    newTitle ≠ Column.title column_a ∧
    (∀ c, head newTitle = Some c ∨ last newTitle = Some c →
          is_js_space c = false).
Proof.
  exact (saveRename_posts_trimmed column_a (lit "  To do ")
           (RenameColumn (lit "a") (lit "To do")) (lit "  To do ")
           ltac:(vm_compute; reflexivity)).
Defined.

Lemma Forall_trim (P : code_unit → Prop) s : Forall P s → Forall P (trim s).
Proof.
  destruct (trim_split s) as (ws1 & ws2 & Hs). rewrite Hs at 1.
  by intros (_ & (? & _)%Forall_app)%Forall_app.
Qed.

(** Only a text of white space trims to the empty string. *)
Lemma trim_nil_blank s : trim s = [] → forallb is_js_space s = true.
Proof.
  unfold trim. intros Hnil.
  destruct (trim_start_split s) as (ws1 & Hs & Hws1).
  destruct (trim_start_split (reverse (trim_start s))) as (ws & Hrev & Hws).
  apply (f_equal reverse) in Hnil.
  rewrite reverse_involutive in Hnil. rewrite Hnil, app_nil_r in Hrev.
  apply (f_equal reverse) in Hrev. rewrite reverse_involutive in Hrev.
  rewrite Hs, Hrev, forallb_app, Hws1. simpl.
  apply forallb_forall. intros c Hc.
  rewrite forallb_forall in Hws. apply Hws.
  by apply list_elem_of_In, elem_of_reverse, list_elem_of_In.
Qed.

(** The space is the only white space that the pattern of [createBoard]
    keeps. *)
Lemma safe_space_unit c :
  is_safe_unit c = true → is_js_space c = true → c = cu " ".
Proof.
  unfold is_safe_unit, is_js_space. intros Hsafe Hspace.
  repeat first [apply orb_prop in Hsafe as [Hsafe|Hsafe]
               |apply andb_prop in Hsafe as [? ?]];
    repeat match goal with
           | H : (_ <=? _)%N = true |- _ => apply N.leb_le in H
           | H : (_ =? _)%N = true |- _ => apply N.eqb_eq in H
           end;
    try done; subst; try done;
    repeat first [apply orb_prop in Hspace as [Hspace|Hspace]
                 |apply andb_prop in Hspace as [? ?]];
    repeat match goal with
           | H : (_ <=? _)%N = true |- _ => apply N.leb_le in H
           | H : (_ =? _)%N = true |- _ => apply N.eqb_eq in H
           end;
    try done; lia.
Qed.

(** Nothing is left of a name exactly when each code unit of it that the
    pattern keeps is a space. *)
Lemma safeName_nil name :
  safeName name = [] ↔
  ∀ c, c ∈ name → is_safe_unit c = true → c = cu " ".
Proof.
  unfold safeName. split.
  - intros Hblank%trim_nil_blank c Hc Hsafe.
    apply safe_space_unit; [done|].
    rewrite forallb_forall in Hblank. apply Hblank.
    apply list_elem_of_In, list_elem_of_filter. by split.
  - intros Hspaces. apply trim_blank, forallb_forall.
    intros c [Hsafe Hc]%list_elem_of_In%list_elem_of_filter.
    by rewrite (Hspaces c Hc Hsafe).
Qed.

(** X19.  With no answer or an empty answer, [createBoard] produces no
    file name.  With any other answer it names the file by what is left of
    the answer once every code unit other than an ASCII letter, a digit, a
    hyphen or a space is removed and the rest is trimmed, followed by
    [.board.json]; when nothing is left, that is when each kept code unit
    of the answer is a space, the stem is [untitled].  In both cases the
    stem is not empty, consists of ASCII letters, digits, hyphens and
    spaces, and neither starts nor ends with a space. *)
Theorem createBoard_filename_safe :
  createBoard_filename None = None ∧
  createBoard_filename (Some []) = None ∧
  ∀ name, name ≠ [] →
    ∃ stem,
      createBoard_filename (Some name) = Some (stem ++ lit ".board.json") ∧
      ((∀ c, c ∈ name → is_safe_unit c = true → c = cu " ") →
         stem = lit "untitled") ∧
      (¬ (∀ c, c ∈ name → is_safe_unit c = true → c = cu " ") →
         stem = trim (filter (λ c, is_safe_unit c = true) name)) ∧
      stem ≠ [] ∧
      Forall (λ c, is_safe_unit c = true) stem ∧
      (∀ c, head stem = Some c ∨ last stem = Some c → c ≠ cu " ").
Proof.
  split_and!; [done|done|].
  intros [|c0 name] Hname; [done|]. cbn [createBoard_filename].
  unfold filename. set (n := c0 :: name).
  pose proof (safeName_nil n) as Hnil.
  destruct (safeName n) as [|c safe] eqn:Hsafe.
  - exists (lit "untitled"). split_and!; [done|done| |done| |].
    + intros Hleft. by destruct Hleft; apply Hnil.
    + by repeat constructor.
    + intros c [[= <-]|[= <-]]; done.
  - exists (c :: safe). split_and!; [done| |done|done| |].
    + intros Hspaces. by apply Hnil in Hspaces.
    + rewrite <- Hsafe. unfold safeName. apply Forall_trim.
      apply Forall_forall. by intros x [Hx _]%list_elem_of_filter.
    + intros d Hd ->. rewrite <- Hsafe in Hd. unfold safeName in Hd.
      destruct Hd as [Hd%trim_head|Hd%trim_last]; done.
Qed.

Lemma createBoard_filename_safe_witness :
  lit " ../Plan 2! " ≠ [] ∧
  ∃ stem,
    createBoard_filename (Some (lit " ../Plan 2! "))
      = Some (stem ++ lit ".board.json") ∧
    ((∀ c, c ∈ lit " ../Plan 2! " → is_safe_unit c = true → c = cu " ") →
       stem = lit "untitled") ∧
    (¬ (∀ c, c ∈ lit " ../Plan 2! " → is_safe_unit c = true → c = cu " ") →
       stem = trim (filter (λ c, is_safe_unit c = true) (lit " ../Plan 2! "))) ∧
    stem ≠ [] ∧
    Forall (λ c, is_safe_unit c = true) stem ∧
    (∀ c, head stem = Some c ∨ last stem = Some c → c ≠ cu " ").
Proof.
  split; [discriminate|].
  exact (proj2 (proj2 createBoard_filename_safe) (lit " ../Plan 2! ")
           ltac:(discriminate)).
Defined.

(** ** Generated ids *)

Lemma digits_is_digit d : forallb is_digit (digits d) = true.
Proof. induction d; simpl; auto. Qed.

Lemma digits_inj d1 d2 : digits d1 = digits d2 → d1 = d2.
Proof.
  revert d2. induction d1; intros [] H; simplify_eq/=; f_equal; auto.
Qed.

(** The decimal digits of a time tell the time. *)
Lemma Number_toString_inj a b : Number_toString a = Number_toString b → a = b.
Proof.
  intros H%digits_inj.
  by rewrite <- (DecimalN.Unsigned.of_to a), <- (DecimalN.Unsigned.of_to b), H.
Qed.

Lemma is_digit_id_unit c : is_digit c = true → is_id_unit c = true.
Proof.
  unfold is_digit, is_id_unit, is_lower_alnum. intros ->.
  by rewrite orb_true_r.
Qed.

Lemma Number_toString_id_units n :
  forallb is_id_unit (Number_toString n) = true.
Proof.
  apply forallb_forall. intros c Hc. apply is_digit_id_unit.
  pose proof (digits_is_digit (N.to_uint n)) as H.
  rewrite forallb_forall in H. by apply H.
Qed.

Lemma Number_toString_no_hyphen n : cu "-" ∉ Number_toString n.
Proof.
  intros Hin%list_elem_of_In.
  pose proof (digits_is_digit (N.to_uint n)) as H.
  rewrite forallb_forall in H. by apply H in Hin.
Qed.

(** What follows the last separator. *)
Lemma after_last_separator {A} (x : A) l1 l2 d1 d2 :
  x ∉ d1 → x ∉ d2 → l1 ++ x :: d1 = l2 ++ x :: d2 → d1 = d2.
Proof.
  revert l2. induction l1 as [|a l1 IH]; intros [|b l2] H1 H2 Heq;
    simplify_eq/=; try done.
  - destruct H1. apply elem_of_app. right. by left.
  - destruct H2. apply elem_of_app. right. by left.
  - by eapply IH.
Qed.

(** X16.  The id of a column made by [add-column], the slug of the title,
    a hyphen and the time, consists of lower-case ASCII letters, digits and
    hyphens only, whatever the title; and it tells the time: two such ids
    are the same only for columns made in the same millisecond. *)
Theorem column_id_shape lower title1 title2 now1 now2 :
  forallb is_id_unit (slug lower title1 ++ lit "-" ++ Number_toString now1)
    = true ∧
  (slug lower title1 ++ lit "-" ++ Number_toString now1
   = slug lower title2 ++ lit "-" ++ Number_toString now2 →
   now1 = now2).
Proof.
  split.
  - apply forallb_forall. intros c Hc%list_elem_of_In.
    apply elem_of_app in Hc as [Hc|Hc%elem_of_app].
    + unfold slug, replace_non_alnum in Hc.
      apply list_elem_of_fmap in Hc as (x & -> & _).
      unfold is_id_unit. destruct (is_lower_alnum x) eqn:Hx; [by rewrite Hx|].
      by rewrite orb_true_r.
    + destruct Hc as [Hc|Hc].
      * by apply list_elem_of_singleton in Hc as ->.
      * pose proof (Number_toString_id_units now1) as H.
        rewrite forallb_forall in H. by apply H, list_elem_of_In.
  - intros Heq. apply Number_toString_inj.
    by eapply (after_last_separator (cu "-")), Heq;
      apply Number_toString_no_hyphen.
Qed.

(** X17.  The id of a card made by [add-card], [card-] and the time,
    consists of lower-case ASCII letters, digits and a hyphen; two cards get
    the same id exactly when they are made in the same millisecond, whatever
    their titles and columns. *)
Theorem card_id_shape now1 now2 :
  forallb is_id_unit (lit "card-" ++ Number_toString now1) = true ∧
  (lit "card-" ++ Number_toString now1 = lit "card-" ++ Number_toString now2
   ↔ now1 = now2).
Proof.
  split.
  - apply forallb_forall. intros c Hc%list_elem_of_In.
    apply elem_of_app in Hc as [Hc|Hc].
    + revert c Hc. apply Forall_forall. by repeat constructor.
    + pose proof (Number_toString_id_units now1) as H.
      rewrite forallb_forall in H. by apply H, list_elem_of_In.
  - split; [|by intros ->].
    intros H%app_inv_head. by apply Number_toString_inj.
Qed.

(** ** The insertion point of a drop *)

Section Drag_properties.
Context {number element : Type}.
Variable ltb : number → number → bool.
Variable zero : number.
Hypothesis ltb_irrefl : ∀ a, ltb a a = false.
Hypothesis ltb_trans :
  ∀ a b c, ltb a b = true → ltb b c = true → ltb a c = true.

Lemma closest_spec (children : list (number * element)) :
  match foldl (closer ltb zero) None children with
  | None => Forall (λ c, ltb c.1 zero = false) children
  | Some best =>
    best ∈ children ∧ ltb best.1 zero = true ∧
    Forall (λ c, ltb c.1 zero = true → ltb best.1 c.1 = false) children
  end.
Proof.
  induction children as [|x children IH] using rev_ind; [by constructor|].
  rewrite foldl_app. cbn [foldl]. unfold closer at 1.
  destruct (ltb x.1 zero) eqn:Hx; cbn [andb].
  - destruct (foldl (closer ltb zero) None children) as [best|].
    + destruct IH as (Hin & Hneg & Hmax).
      destruct (ltb best.1 x.1) eqn:Hbx.
      * split_and!; [apply elem_of_app; right; by left|done|].
        apply Forall_app. split; [|by repeat constructor].
        eapply Forall_impl; [exact Hmax|]. intros c Hc Hcneg. cbv beta in Hc.
        destruct (ltb x.1 c.1) eqn:Hxc; [|done].
        by rewrite (ltb_trans _ _ _ Hbx Hxc) in Hc; auto.
      * split_and!; [apply elem_of_app; by left|done|].
        apply Forall_app. split; [done|]. by repeat constructor.
    + split_and!; [apply elem_of_app; right; by left|done|].
      apply Forall_app. split; [|by repeat constructor].
      eapply Forall_impl; [exact IH|]. intros c Hc Hcneg. congruence.
  - destruct (foldl (closer ltb zero) None children) as [best|].
    + destruct IH as (Hin & Hneg & Hmax). split_and!; [apply elem_of_app; by left|done|].
      apply Forall_app. split; [done|]. repeat constructor. congruence.
    + apply Forall_app. split; [done|]. by repeat constructor.
Qed.

(** X20.  [getDragAfterElement] gives the card whose centre is nearest
    below the pointer: a card with a negative offset that no other card
    with a negative offset exceeds.  It gives [undefined] exactly when no
    card has a negative offset, that is when the pointer is below the
    centre of every card. *)
Theorem getDragAfterElement_nearest_below
    (children : list (number * element)) :
  (getDragAfterElement ltb zero children = None ↔
   Forall (λ c, ltb c.1 zero = false) children) ∧
  (∀ e, getDragAfterElement ltb zero children = Some e →
        ∃ offset,
          (offset, e) ∈ children ∧ ltb offset zero = true ∧
          ∀ c, c ∈ children → ltb c.1 zero = true → ltb offset c.1 = false).
Proof.
  unfold getDragAfterElement. pose proof (closest_spec children) as Hspec.
  destruct (foldl (closer ltb zero) None children) as [[offset best]|];
    cbn [fmap option_fmap option_map].
  - destruct Hspec as (Hin & Hneg & Hmax). split.
    + split; [done|]. intros Hall.
      rewrite Forall_forall in Hall. apply Hall in Hin. simpl in *. congruence.
    + intros e [= <-]. exists offset. split_and!; [done..|].
      rewrite Forall_forall in Hmax. exact Hmax.
  - split; [done|]. by intros e.
Qed.
End Drag_properties.

Lemma getDragAfterElement_nearest_below_witness :
  let children := [((-30)%Z, lit "c1"); ((-5)%Z, lit "c2"); (20%Z, lit "c3")] in
  (getDragAfterElement Z.ltb 0%Z children = None ↔
   Forall (λ c, (c.1 <? 0)%Z = false) children) ∧
  (∀ e, getDragAfterElement Z.ltb 0%Z children = Some e →
        ∃ offset,
          (offset, e) ∈ children ∧ (offset <? 0)%Z = true ∧
          ∀ c, c ∈ children → (c.1 <? 0)%Z = true → (offset <? c.1)%Z = false).
Proof.
  exact (getDragAfterElement_nearest_below Z.ltb 0%Z Z.ltb_irrefl
           ltac:(intros a b c; rewrite !Z.ltb_lt; lia)
           [((-30)%Z, lit "c1"); ((-5)%Z, lit "c2"); (20%Z, lit "c3")]).
Defined.

(** ** The snapshot of a written board *)

(** X21.  After the editor has written a board, the snapshot that
    [sendData] posts on the change of the document is that board. *)
Theorem sendData_posts_written_board answer now h b :
  document h = serialize_board b →
  ∃ data,
    run sendData answer now h
      = ({| document := document h; log := Posted data :: log h |}, Some tt) ∧
    board_of_json data = Some b.
Proof.
  intros Hdoc. exists (json_of_board b). split.
  - apply run_sendData. rewrite Hdoc. apply serialize_board_parses.
  - apply board_of_json_of_board.
Qed.

Lemma sendData_posts_written_board_witness :
  ∃ data,
    run sendData None 0%N
        {| document := serialize_board scenario_board; log := [] |}
      = ({| document := serialize_board scenario_board;
            log := [Posted data] |}, Some tt) ∧
    board_of_json data = Some scenario_board.
Proof.
  exact (sendData_posts_written_board None 0%N
           {| document := serialize_board scenario_board; log := [] |}
           scenario_board eq_refl).
Defined.

(** ** More instances on the board of the scenarios *)

Lemma add_card_writes_captured_board_witness :
  ∃ resume,
    start (onDidReceiveMessage ascii_toLowerCase (AddCard (lit "b"))) 0%N
          {| document := serialize_board scenario_board; log := [] |}
      = Awaiting {| document := serialize_board scenario_board;
                    log := [Prompted (lit "New Card Title")] |} resume ∧
    ∀ h2 parsed2 c title now2,
      JSON_parse (document h2) = Some parsed2 →
      document (run (resume (Some (c :: title))) (Some (c :: title)) now2 h2).1
      = replace_range (length (serialize_board scenario_board))
          (serialize_board
             {| columns :=
                  set_cards 1%nat
                    (Column.cards column_b
                       ++ [Card.mk (lit "card-" ++ Number_toString now2)
                                   (c :: title)])
                    (columns scenario_board) |})
          (document h2).
Proof.
  exact (add_card_writes_captured_board ascii_toLowerCase 0%N
           {| document := serialize_board scenario_board; log := [] |}
           scenario_board (lit "b") 1%nat column_b
           ltac:(vm_compute; reflexivity) eq_refl).
Defined.

(** X23.  A drop of a card that is no longer in the column it was dragged
    from moves nothing, and the webview still posts its state in an
    [update] message, which the editor writes to the document. *)
Theorem ondrop_vanished_card lower answer now h data
    state fromColumn colId draggedId afterElement fi fc ti tc :
  find_column fromColumn (columns state) = Some (fi, fc) →
  find_column colId (columns state) = Some (ti, tc) →
  find_card draggedId (Column.cards fc) = None →
  load (document h) = Some data →
  ondrop state fromColumn colId draggedId afterElement
    = (Returns state, Some (Update state)) ∧
  run (onDidReceiveMessage lower (Update state)) answer now h
    = ({| document := serialize_board state;
          log := Saved :: Edited (serialize_board state) :: log h |}, Some tt).
Proof.
  intros Hfrom Hto Hcard Hload. split.
  - unfold ondrop. rewrite Hto.
    by apply (ondrop_card_unresolved_card _ _ _ _ _ _ _ Hfrom Hcard).
  - rewrite (run_onDidReceiveMessage _ _ _ _ _ _ Hload).
    cbn [branch run mret Proc_ret]. by rewrite replace_range_all.
Qed.

Lemma ondrop_vanished_card_witness :
  ondrop scenario_board (lit "a") (lit "b") (lit "c9") None
    = (Returns scenario_board, Some (Update scenario_board)) ∧
  run (onDidReceiveMessage ascii_toLowerCase (Update scenario_board)) None 0%N
      {| document := serialize_board scenario_board; log := [] |}
    = ({| document := serialize_board scenario_board;
          log := [Saved; Edited (serialize_board scenario_board)] |}, Some tt).
Proof.
  exact (ondrop_vanished_card ascii_toLowerCase None 0%N
           {| document := serialize_board scenario_board; log := [] |}
           scenario_board scenario_board (lit "a") (lit "b") (lit "c9") None
           0%nat column_a 1%nat column_b eq_refl eq_refl eq_refl
           ltac:(vm_compute; reflexivity)).
Defined.

(** ** A message that comes twice *)

Lemma list_find_delete_None {A B} `{EqDecision B} (f : A → B) (b : B)
    (l : list A) i x :
  NoDup (f <$> l) →
  list_find (λ y, f y = b) l = Some (i, x) →
  list_find (λ y, f y = b) (delete i l) = None.
Proof.
  intros Hnodup (Hi & Hb & _)%list_find_Some.
  apply list_find_None, Forall_lookup. intros j y Hj Hy.
  assert (∃ j', j' ≠ i ∧ l !! j' = Some y) as (j' & Hne & Hj').
  { destruct (decide (j < i)%nat).
    - exists j. split; [lia|]. by rewrite list_lookup_delete_lt in Hj.
    - exists (S j). split; [lia|].
      by rewrite list_lookup_delete_ge in Hj by lia. }
  apply Hne. apply (NoDup_lookup (f <$> l) j' i b); [done|..].
  - by rewrite list_lookup_fmap, Hj'; simpl; f_equal.
  - by rewrite list_lookup_fmap, Hi; simpl; f_equal.
Qed.

(** X24.  On a board whose column ids are all different, a
    [delete-column] message that comes a second time finds nothing: the
    first one writes the board without the column, and the second one
    leaves that document as it is and writes nothing. *)
Theorem delete_column_twice lower answer now h data columnId i col :
  load (document h) = Some data →
  NoDup (Column.id <$> columns data) →
  find_column columnId (columns data) = Some (i, col) →
  ∃ h',
    run (onDidReceiveMessage lower (DeleteColumn columnId)) answer now h
      = (h', Some tt) ∧
    load (document h') = Some {| columns := delete i (columns data) |} ∧
    run (onDidReceiveMessage lower (DeleteColumn columnId)) answer now h'
      = (h', Some tt).
Proof.
  intros Hload Hnodup Hcol.
  pose proof (from_lookup _ _ _ _ Hcol) as Hi.
  rewrite (run_onDidReceiveMessage _ _ _ _ _ _ Hload).
  unfold branch at 1. rewrite Hcol, (splice_remove _ _ _ Hi).
  cbn [run mret Proc_ret fst]. rewrite replace_range_all.
  eexists. split; [done|]. cbn [document].
  pose proof (serialize_board_loads {| columns := delete i (columns data) |})
    as Hload'.
  split; [done|].
  rewrite (run_onDidReceiveMessage lower _ answer now
             {| document := serialize_board _; log := _ |} _ Hload').
  unfold branch. cbn [columns]. unfold find_column in *.
  by rewrite (list_find_delete_None Column.id columnId _ _ _ Hnodup Hcol).
Qed.

Lemma delete_column_twice_witness :
  ∃ h',
    run (onDidReceiveMessage ascii_toLowerCase (DeleteColumn (lit "a")))
        None 0%N {| document := serialize_board scenario_board; log := [] |}
      = (h', Some tt) ∧
    load (document h') = Some {| columns := [column_b] |} ∧
    run (onDidReceiveMessage ascii_toLowerCase (DeleteColumn (lit "a")))
        None 0%N h' = (h', Some tt).
Proof.
  exact (delete_column_twice ascii_toLowerCase None 0%N
           {| document := serialize_board scenario_board; log := [] |}
           scenario_board (lit "a") 0%nat column_a
           ltac:(vm_compute; reflexivity)
           ltac:(repeat constructor; intros H; vm_compute in H;
                 repeat (apply elem_of_cons in H as [H|H]; [discriminate|]);
                 by apply elem_of_nil in H)
           eq_refl).
Defined.

Lemma find_column_set_cards id i c cs cols :
  find_column id cols = Some (i, c) →
  find_column id (set_cards i cs cols)
  = Some (i, Column.mk (Column.id c) (Column.title c) cs).
Proof.
  intros (Hi & Hid & Hleast)%list_find_Some.
  apply list_find_Some. split_and!; [by apply set_cards_lookup_eq|done|].
  intros j y Hj Hlt. rewrite set_cards_lookup_ne in Hj by lia. eauto.
Qed.

(** X25.  In a column whose card ids are all different, a [delete-card]
    message that comes a second time finds nothing: the first one writes
    the board without the card, and the second one leaves that document as
    it is and writes nothing. *)
Theorem delete_card_twice lower answer now h data columnId cardId
    i col k card :
  load (document h) = Some data →
  find_column columnId (columns data) = Some (i, col) →
  NoDup (Card.id <$> Column.cards col) →
  find_card cardId (Column.cards col) = Some (k, card) →
  ∃ h',
    run (onDidReceiveMessage lower (DeleteCard columnId cardId)) answer now h
      = (h', Some tt) ∧
    load (document h')
      = Some {| columns :=
                  set_cards i (delete k (Column.cards col)) (columns data) |} ∧
    run (onDidReceiveMessage lower (DeleteCard columnId cardId)) answer now h'
      = (h', Some tt).
Proof.
  intros Hload Hcol Hnodup Hcard.
  pose proof (card_lookup _ _ _ _ Hcard) as Hk.
  rewrite (run_onDidReceiveMessage _ _ _ _ _ _ Hload).
  unfold branch at 1. rewrite Hcol, Hcard, (splice_remove _ _ _ Hk).
  cbn [run mret Proc_ret fst]. rewrite replace_range_all.
  eexists. split; [done|]. cbn [document].
  pose proof (serialize_board_loads
                {| columns := set_cards i (delete k (Column.cards col))
                                        (columns data) |}) as Hload'.
  split; [done|].
  rewrite (run_onDidReceiveMessage lower _ answer now
             {| document := serialize_board _; log := _ |} _ Hload').
  unfold branch. cbn [columns].
  rewrite (find_column_set_cards _ _ _ _ _ Hcol). cbn [Column.cards].
  unfold find_card in *.
  by rewrite (list_find_delete_None Card.id cardId _ _ _ Hnodup Hcard).
Qed.

Lemma delete_card_twice_witness :
  ∃ h',
    run (onDidReceiveMessage ascii_toLowerCase
           (DeleteCard (lit "a") (lit "c1"))) None 0%N
        {| document := serialize_board scenario_board; log := [] |}
      = (h', Some tt) ∧
    load (document h')
      = Some {| columns := [Column.mk (lit "a") (lit "A") [card_c2];
                            column_b] |} ∧
    run (onDidReceiveMessage ascii_toLowerCase
           (DeleteCard (lit "a") (lit "c1"))) None 0%N h' = (h', Some tt).
Proof.
  exact (delete_card_twice ascii_toLowerCase None 0%N
           {| document := serialize_board scenario_board; log := [] |}
           scenario_board (lit "a") (lit "c1") 0%nat column_a 0%nat card_c1
           ltac:(vm_compute; reflexivity) eq_refl
           ltac:(repeat constructor; intros H; vm_compute in H;
                 repeat (apply elem_of_cons in H as [H|H]; [discriminate|]);
                 by apply elem_of_nil in H)
           eq_refl).
Defined.
